(** * The paginated JSON export of the architecture database

    A shallow embedding of [scripts/json-export.py]: the function
    [export_architecture_data] and the [__main__] block that turns its
    result into the exit code of the process.

    Python values are modelled at the types the columns of the table
    [ZCDARCHITECTURE] are declared with: [Z_PK] is an integer primary key,
    [ZAR_YEAR] an optional integer, the coordinates optional reals and all
    other columns optional text.  A Python [str] is a sequence of Unicode
    code points, so that [len], slicing and comparison count characters
    and not bytes. *)

From Stdlib Require Import ZArith Decimal DecimalZ Ascii String.
From stdpp Require Import base list sorting gmap.

Local Open Scope Z_scope.
Set Warnings "-register-all".

(** ** Python strings *)

(** A code point. *)
Definition char : Type := N.

(** A Python [str]. *)
Definition pystr : Type := list char.

(** An ASCII literal of the source, as a [str]. *)
Definition lit (s : String.string) : pystr :=
  map Ascii.N_of_ascii (String.list_ascii_of_string s).
Arguments lit s%_string.

(** [bool(s)] for an optional text value: [None] and [''] are falsy. *)
Definition truthy_str (o : option pystr) : bool :=
  match o with
  | Some (_ :: _) => true
  | _ => false
  end.

(** [bool(n)] for an optional integer: [None] and [0] are falsy. *)
Definition truthy_int (o : option Z) : bool :=
  match o with
  | Some n => negb (n =? 0)
  | None => false
  end.

(** [x or default] on an optional text value. *)
Definition py_or (x : option pystr) (default : pystr) : pystr :=
  match x with
  | Some (c :: s) => c :: s
  | _ => default
  end.

(** The digits of [str(n)]. *)
Fixpoint digits (u : Decimal.uint) : pystr :=
  match u with
  | Nil => []
  | D0 u => 48%N :: digits u
  | D1 u => 49%N :: digits u
  | D2 u => 50%N :: digits u
  | D3 u => 51%N :: digits u
  | D4 u => 52%N :: digits u
  | D5 u => 53%N :: digits u
  | D6 u => 54%N :: digits u
  | D7 u => 55%N :: digits u
  | D8 u => 56%N :: digits u
  | D9 u => 57%N :: digits u
  end.

(** [str(n)] for a Python [int]: decimal, with a minus sign when negative. *)
Definition str (n : Z) : pystr :=
  match Z.to_int n with
  | Pos u => digits u
  | Neg u => 45%N :: digits u
  end.

(** The three placeholder literals of the source. *)

(** U+4E0D U+660E U+306A U+5EFA U+7BC9 U+7269 (unknown building). *)
Definition title_placeholder : pystr :=
  [0x4E0D; 0x660E; 0x306A; 0x5EFA; 0x7BC9; 0x7269]%N.

(** U+4E0D U+660E U+306A U+5EFA U+7BC9 U+5BB6 (unknown architect). *)
Definition architect_placeholder : pystr :=
  [0x4E0D; 0x660E; 0x306A; 0x5EFA; 0x7BC9; 0x5BB6]%N.

(** U+4F4F U+6240 U+4E0D U+660E (address unknown). *)
Definition address_placeholder : pystr :=
  [0x4F4F; 0x6240; 0x4E0D; 0x660E]%N.

(** ** Rows and items *)

(** An SQLite REAL, carried as the bit pattern of its binary64: the export
    only passes it through. *)
Record float := Float { bits : Z }.

(** One row of the [SELECT] of the paging loop, by column alias. *)
Module Row.
Record t := Make {
  id : Z;
  title : option pystr;
  architect : option pystr;
  year : option Z;
  address : option pystr;
  latitude : option float;
  longitude : option float;
  category : option pystr;
  big_category : option pystr;
  description : option pystr;
  image_url : option pystr;
  tags : option pystr;
  prefecture : option pystr;
  contractor : option pystr;
  structural_designer : option pystr;
  landscape_designer : option pystr;
  shinkenchiku_url : option pystr
}.
End Row.

(** The dict [item] built for a row, by key.  [title], [architect] and
    [address] are the results of [x or placeholder], hence always a [str]. *)
Module Item.
Record t := Make {
  id : Z;
  title : pystr;
  architect : pystr;
  year : option Z;
  address : pystr;
  latitude : option float;
  longitude : option float;
  category : option pystr;
  big_category : option pystr;
  description : option pystr;
  image_url : option pystr;
  tags : option pystr;
  prefecture : option pystr;
  contractor : option pystr;
  structural_designer : option pystr;
  landscape_designer : option pystr;
  shinkenchiku_url : option pystr
}.
End Item.

(** [row["year"] if row["year"] and row["year"] > 0 else None] *)
Definition normalize_year (y : option Z) : option Z :=
  match y with
  | Some n => if truthy_int (Some n) && (n >? 0) then Some n else None
  | None => None
  end.

(** The dict literal of the inner loop (lines 80-98). *)
Definition normalize (row : Row.t) : Item.t :=
  {| Item.id := Row.id row;
     Item.title := py_or (Row.title row) title_placeholder;
     Item.architect := py_or (Row.architect row) architect_placeholder;
     Item.year := normalize_year (Row.year row);
     Item.address := py_or (Row.address row) address_placeholder;
     Item.latitude := Row.latitude row;
     Item.longitude := Row.longitude row;
     Item.category := Row.category row;
     Item.big_category := Row.big_category row;
     Item.description := Row.description row;
     Item.image_url := Row.image_url row;
     Item.tags := Row.tags row;
     Item.prefecture := Row.prefecture row;
     Item.contractor := Row.contractor row;
     Item.structural_designer := Row.structural_designer row;
     Item.landscape_designer := Row.landscape_designer row;
     Item.shinkenchiku_url := Row.shinkenchiku_url row |}.

(** ** Dictionaries

    A Python [dict] with [str] keys keeps its keys in insertion order, and
    [json.dump] writes them in that order: an association list with at most
    one entry per key. *)

Definition dict (V : Type) : Type := list (pystr * V).

(** [d.get(k)]; [k in d] is [is_Some (dict_get d k)]. *)
Fixpoint dict_get {V} (d : dict V) (k : pystr) : option V :=
  match d with
  | [] => None
  | (k', v) :: d' => if decide (k' = k) then Some v else dict_get d' k
  end.

(** [d[k] = v]: a known key keeps its place, a new one goes last. *)
Fixpoint dict_set {V} (k : pystr) (v : V) (d : dict V) : dict V :=
  match d with
  | [] => [(k, v)]
  | (k', v') :: d' =>
      if decide (k' = k) then (k', v) :: d' else (k', v') :: dict_set k v d'
  end.

(** The keys of a dict, in insertion order. *)
Definition dict_keys {V} (d : dict V) : list pystr := d.*1.

(** The three lines that every facet repeats:
<<
    if key not in facet: facet[key] = []
    facet[key].append(item_id)
>> *)
Definition index_append (key : pystr) (item_id : Z) (facet : dict (list Z))
  : dict (list Z) :=
  let facet :=
    match dict_get facet key with
    | None => dict_set key [] facet
    | Some _ => facet
    end in
  match dict_get facet key with
  | Some ids => dict_set key (ids ++ [item_id]) facet
  | None => facet
  end.

(** ** The search index *)

(** [str.lower] and the white space that [str.split] cuts at follow the
    Unicode character database of the interpreter, which is no part of the
    repository: both are parameters of the development. *)
Class Unicode := {
  lower : pystr → pystr;
  isspace : char → bool
}.

(** The dict [search_index], by key. *)
Record search_index := SearchIndex {
  architects : dict (list Z);
  years : dict (list Z);
  categories : dict (list Z);
  titles : dict (list Z);
  addresses : dict (list Z)
}.

Definition empty_index : search_index :=
  {| architects := []; years := []; categories := []; titles := [];
     addresses := [] |}.

Definition on_architects (f : dict (list Z) → dict (list Z)) (x : search_index) :=
  {| architects := f (architects x); years := years x;
     categories := categories x; titles := titles x;
     addresses := addresses x |}.

Definition on_years (f : dict (list Z) → dict (list Z)) (x : search_index) :=
  {| architects := architects x; years := f (years x);
     categories := categories x; titles := titles x;
     addresses := addresses x |}.

Definition on_categories (f : dict (list Z) → dict (list Z)) (x : search_index) :=
  {| architects := architects x; years := years x;
     categories := f (categories x); titles := titles x;
     addresses := addresses x |}.

Definition on_titles (f : dict (list Z) → dict (list Z)) (x : search_index) :=
  {| architects := architects x; years := years x;
     categories := categories x; titles := f (titles x);
     addresses := addresses x |}.

Definition on_addresses (f : dict (list Z) → dict (list Z)) (x : search_index) :=
  {| architects := architects x; years := years x;
     categories := categories x; titles := titles x;
     addresses := f (addresses x) |}.

Section Index.
Context `{Unicode}.

(** [s.split()]: the maximal runs of characters that are not white space.
    [word] is the run read so far. *)
Fixpoint split_from (word : pystr) (s : pystr) : list pystr :=
  match s with
  | [] => match word with [] => [] | _ => [word] end
  | c :: s' =>
      if isspace c
      then match word with
           | [] => split_from [] s'
           | _ => word :: split_from [] s'
           end
      else split_from (word ++ [c]) s'
  end.

Definition split (s : pystr) : list pystr := split_from [] s.

(** Lines 129-133. *)
Definition index_architect (item : Item.t) : search_index → search_index :=
  if truthy_str (Some (Item.architect item))
     && negb (bool_decide (Item.architect item = architect_placeholder))
  then
    let architect := lower (Item.architect item) in
    on_architects (index_append architect (Item.id item))
  else id.

(** Lines 136-140. *)
Definition index_year (item : Item.t) : search_index → search_index :=
  match Item.year item with
  | Some y =>
      if truthy_int (Some y)
      then let year := str y in on_years (index_append year (Item.id item))
      else id
  | None => id
  end.

(** Lines 146-150, the body of [for part in title_parts]. *)
Definition index_title_part (item_id : Z) (x : search_index) (part : pystr)
  : search_index :=
  if bool_decide (2 ≤ length part)%nat
  then let key := take 3 part in on_titles (index_append key item_id) x
  else x.

(** Lines 143-150. *)
Definition index_title (item : Item.t) (x : search_index) : search_index :=
  if truthy_str (Some (Item.title item))
  then
    let title_parts := split (lower (Item.title item)) in
    foldl (index_title_part (Item.id item)) x title_parts
  else x.

(** Lines 153-157. *)
Definition index_category (item : Item.t) : search_index → search_index :=
  match Item.category item with
  | Some c =>
      if truthy_str (Some c)
      then let category := lower c in
           on_categories (index_append category (Item.id item))
      else id
  | None => id
  end.

(** Lines 160-165. *)
Definition index_address (item : Item.t) : search_index → search_index :=
  if truthy_str (Some (Item.address item))
     && negb (bool_decide (Item.address item = address_placeholder))
  then
    let addr_key := take 5 (lower (Item.address item)) in
    on_addresses (index_append addr_key (Item.id item))
  else id.

(** The body of [for item in all_items] (lines 126-165). *)
Definition index_item (x : search_index) (item : Item.t) : search_index :=
  index_address item
    (index_category item
       (index_title item
          (index_year item
             (index_architect item x)))).

(** Lines 117-165. *)
Definition build_index (all_items : list Item.t) : search_index :=
  foldl index_item empty_index all_items.
End Index.

(** ** The documents handed to [json.dump] *)

Inductive json :=
  | JNull
  | JInt (n : Z)
  | JFloat (x : float)
  | JStr (s : pystr)
  | JList (l : list json)
  | JDict (d : list (pystr * json)).

(** An optional value: [None] is written as [null]. *)
Definition opt {A} (f : A → json) (o : option A) : json :=
  match o with
  | Some a => f a
  | None => JNull
  end.

(** The dict [item], with its keys in the order of the literal. *)
Definition item_json (item : Item.t) : json :=
  JDict [
    (lit "id", JInt (Item.id item));
    (lit "title", JStr (Item.title item));
    (lit "architect", JStr (Item.architect item));
    (lit "year", opt JInt (Item.year item));
    (lit "address", JStr (Item.address item));
    (lit "latitude", opt JFloat (Item.latitude item));
    (lit "longitude", opt JFloat (Item.longitude item));
    (lit "category", opt JStr (Item.category item));
    (lit "big_category", opt JStr (Item.big_category item));
    (lit "description", opt JStr (Item.description item));
    (lit "image_url", opt JStr (Item.image_url item));
    (lit "tags", opt JStr (Item.tags item));
    (lit "prefecture", opt JStr (Item.prefecture item));
    (lit "contractor", opt JStr (Item.contractor item));
    (lit "structural_designer", opt JStr (Item.structural_designer item));
    (lit "landscape_designer", opt JStr (Item.landscape_designer item));
    (lit "shinkenchiku_url", opt JStr (Item.shinkenchiku_url item))
  ].

(** The dict written to a page file (lines 105-111). *)
Definition page_json (page total_pages items_per_page total_count : Z)
    (page_data : list Item.t) : json :=
  JDict [
    (lit "page", JInt (page + 1));
    (lit "total_pages", JInt total_pages);
    (lit "items_per_page", JInt items_per_page);
    (lit "total_items", JInt total_count);
    (lit "items", JList (item_json <$> page_data))
  ].

Definition facet_json (facet : dict (list Z)) : json :=
  JDict (prod_map id (λ ids, JList (JInt <$> ids)) <$> facet).

(** The dict [search_index] as it is dumped (line 170). *)
Definition index_json (x : search_index) : json :=
  JDict [
    (lit "architects", facet_json (architects x));
    (lit "years", facet_json (years x));
    (lit "categories", facet_json (categories x));
    (lit "titles", facet_json (titles x));
    (lit "addresses", facet_json (addresses x))
  ].

(** The dict [metadata] (lines 175-181); [generated_at] is the value of
    [datetime.now().isoformat()]. *)
Definition metadata_json (total_count total_pages items_per_page : Z)
    (generated_at : pystr) : json :=
  JDict [
    (lit "total_items", JInt total_count);
    (lit "total_pages", JInt total_pages);
    (lit "items_per_page", JInt items_per_page);
    (lit "generated_at", JStr generated_at);
    (lit "format_version", JStr (lit "1.0"))
  ].

(** [separators=(',', ':')] or [indent=2]. *)
Inductive layout := Compact | Indent2.

(** What a path holds: the document of a completed [json.dump], or what
    a [json.dump] that raised leaves of the file [open] had truncated. *)
Inductive content :=
  | Dumped (doc : json) (how : layout)
  | Torn.

(** The file names of lines 103, 168 and 183. *)
Definition page_file (output_dir : pystr) (page : Z) : pystr :=
  output_dir ++ lit "/page_" ++ str (page + 1) ++ lit ".json".

Definition index_file (output_dir : pystr) : pystr :=
  output_dir ++ lit "/search_index.json".

Definition metadata_file (output_dir : pystr) : pystr :=
  output_dir ++ lit "/metadata.json".

(** ** The world of one run *)

(** The operations of the run that can raise. *)
Inductive op :=
  | Makedirs (dir : pystr)
  | Connect (db_path : pystr)
  | Count
  | Select (limit offset : Z)
  | Write (path : pystr)
  | DirSize (dir : pystr).

Inductive exn := SqliteError | OSError.

(** The class of the exception an operation raises. *)
Definition exn_of (o : op) : exn :=
  match o with
  | Connect _ | Count | Select _ _ => SqliteError
  | Makedirs _ | Write _ | DirSize _ => OSError
  end.

(** What a run does not decide: the rows of [ZCDARCHITECTURE], which
    operations raise, where a write that raises does so, and the reading
    of the clock.  A write is [with open(path, 'w') as f: json.dump(...)]:
    [opens path] tells whether [open] returns, and so has truncated the
    file, when the write of [path] raises; if it does not, it is [open]
    that raises and the path is left as it was. *)
Record world := World {
  table : list Row.t;
  raises : op → bool;
  opens : pystr → bool;
  now : pystr
}.

Inductive event :=
  | Called (o : op)
  | Closed.

(** The files below the output directory and the operations so far. *)
Record state := State {
  files : gmap pystr content;
  trace : list event
}.

Definition record (e : event) (s : state) : state :=
  {| files := files s; trace := trace s ++ [e] |}.

Definition store (path : pystr) (c : content) (s : state) : state :=
  {| files := <[path := c]> (files s); trace := trace s |}.

(** ** Statements: state and exceptions *)

Inductive res (A : Type) :=
  | Val (a : A)
  | Exc (e : exn).
Arguments Val {A} a.
Arguments Exc {A} e.

Definition M (A : Type) : Type := state → res A * state.

#[global] Instance M_ret : MRet M := λ A a s, (Val a, s).

#[global] Instance M_bind : MBind M := λ A B f m s,
  match m s with
  | (Val a, s') => f a s'
  | (Exc e, s') => (Exc e, s')
  end.

(** [try: body / except <classes>: handler] *)
Definition try_except {A} (body : M A) (classes : exn → bool) (handler : M A)
  : M A := λ s,
  match body s with
  | (Exc e, s') => if classes e then handler s' else (Exc e, s')
  | r => r
  end.

(** [try: body / finally: final] *)
Definition try_finally {A} (body : M A) (final : M unit) : M A := λ s,
  let '(r, s') := body s in
  match final s' with
  | (Val _, s'') => (r, s'')
  | (Exc e, s'') => (Exc e, s'')
  end.

(** [except sqlite3.Error] and [except Exception]. *)
Definition sqlite3_Error (e : exn) : bool :=
  match e with SqliteError => true | OSError => false end.

Definition Exception (e : exn) : bool := true.

(** ** The export *)

(** [items_per_page = 50] (line 42). *)
Definition items_per_page : Z := 50.

(** [math.ceil(a / b)] for a count [a] and [b = 50].  The quotient is
    taken in binary64; for a count below 2^53 its rounding keeps the
    ceiling, which is computed here on the integers. *)
Definition ceil_div (a b : Z) : Z := - ((- a) `div` b).

(** [ORDER BY Z_PK] *)
Definition pk_le (r1 r2 : Row.t) : Prop := Row.id r1 ≤ Row.id r2.

#[global] Instance pk_le_dec r1 r2 : Decision (pk_le r1 r2) :=
  Z_le_dec (Row.id r1) (Row.id r2).

(** The result set of the [SELECT ... ORDER BY Z_PK LIMIT ? OFFSET ?]. *)
Definition select (rows : list Row.t) (limit offset : Z) : list Row.t :=
  take (Z.to_nat limit) (drop (Z.to_nat offset) (merge_sort pk_le rows)).

(** [for row in rows] (lines 77-100): every item is appended to
    [page_data] and to [all_items]. *)
Definition normalize_rows (rows : list Row.t) (all_items : list Item.t)
  : list Item.t * list Item.t :=
  foldl (λ '(page_data, all_items) row,
           let item := normalize row in
           (page_data ++ [item], all_items ++ [item]))
        ([], all_items) rows.

(** Lines 210-218: the two paths of [sys.argv], with their defaults. *)
Definition argv_db_path (argv : list pystr) : pystr :=
  if (1 <? length argv)%nat
  then default [] (argv !! 1%nat)
  else lit "public/db/archimap.sqlite3".

Definition argv_output_dir (argv : list pystr) : pystr :=
  if (2 <? length argv)%nat
  then default [] (argv !! 2%nat)
  else lit "public/data".

Section Exporter.
Context `{Unicode} (w : world).

(** An operation of the world: it is recorded, and raises if the world
    says so. *)
Definition call (o : op) : M unit := λ s,
  let s := record (Called o) s in
  if raises w o then (Exc (exn_of o), s) else (Val tt, s).

(** [sqlite3.connect(db_path)] and [conn.cursor()]. *)
Definition connect (db_path : pystr) : M unit := call (Connect db_path).

(** [conn.close()] *)
Definition close : M unit := λ s, (Val tt, record Closed s).

(** [SELECT COUNT( * ) FROM ZCDARCHITECTURE] and [fetchone()[0]]. *)
Definition count : M Z :=
  call Count ;; mret (Z.of_nat (length (table w))).

(** The paging query and [fetchall()]. *)
Definition fetch_page (limit offset : Z) : M (list Row.t) :=
  call (Select limit offset) ;; mret (select (table w) limit offset).

(** [with open(path, 'w') as f: json.dump(doc, f, ...)].  When [open]
    raises, nothing is written and the path keeps what it had; when
    [json.dump] raises, [open] has truncated the file and the [with] block
    closes it on what was written so far. *)
Definition dump (path : pystr) (doc : json) (how : layout) : M unit := λ s,
  let s := record (Called (Write path)) s in
  if raises w (Write path)
  then (Exc OSError, if opens w path then store path Torn s else s)
  else (Val tt, store path (Dumped doc how) s).

(** The sum of [os.path.getsize] over the [.json] files of
    [os.listdir(output_dir)]; the sum is only printed. *)
Definition total_size (output_dir : pystr) : M unit :=
  call (DirSize output_dir).

(** [for page in range(total_pages)] (lines 49-113). *)
Fixpoint export_pages (output_dir : pystr) (total_count total_pages : Z)
    (pages : list Z) (all_items : list Item.t) : M (list Item.t) :=
  match pages with
  | [] => mret all_items
  | page :: pages =>
      let offset := page * items_per_page in
      rows ← fetch_page items_per_page offset;
      let '(page_data, all_items) := normalize_rows rows all_items in
      dump (page_file output_dir page)
           (page_json page total_pages items_per_page total_count page_data)
           Compact ;;
      export_pages output_dir total_count total_pages pages all_items
  end.

(** The body of the second [try] (lines 36-201). *)
Definition export_body (output_dir : pystr) : M bool :=
  total_count ← count;
  let total_pages := ceil_div total_count items_per_page in
  all_items ← export_pages output_dir total_count total_pages
                (seqZ 0 total_pages) [];
  let search_index := build_index all_items in
  dump (index_file output_dir) (index_json search_index) Compact ;;
  dump (metadata_file output_dir)
       (metadata_json total_count total_pages items_per_page (now w))
       Indent2 ;;
  total_size output_dir ;;
  mret true.

(** Lines 15-207.  The messages printed on the way are left out. *)
Definition export_architecture_data (db_path output_dir : pystr) : M bool :=
  call (Makedirs output_dir) ;;
  conn ← try_except (connect db_path ;; mret (Some tt))
                    sqlite3_Error (mret None);
  match conn with
  | None => mret false
  | Some _ =>
      try_finally
        (try_except (export_body output_dir) Exception (mret false))
        close
  end.

(** Lines 209-221: [sys.argv] gives the two paths and the result of the
    export gives the exit status.  An exception that nothing catches ends
    the interpreter with status 1. *)
Definition main (argv : list pystr) (s : state) : Z * state :=
  let db_path := argv_db_path argv in
  let output_dir := argv_output_dir argv in
  match export_architecture_data db_path output_dir s with
  | (Val success, s') => (if success then 0 else 1, s')
  | (Exc _, s') => (1, s')
  end.
End Exporter.

(** ** Concrete worlds, for the examples *)

(** [str.lower] and [str.isspace] on text whose cased letters are ASCII
    (Japanese text has no case): the letters A-Z move to a-z, and white
    space is the list of the interpreter. *)
Definition lower_char (c : char) : char :=
  if ((65 <=? c) && (c <=? 90))%N then (c + 32)%N else c.

Definition isspace_char (c : char) : bool :=
  ((9 <=? c) && (c <=? 13) || (28 <=? c) && (c <=? 32)
   || (c =? 0x85) || (c =? 0xA0) || (c =? 0x1680)
   || (0x2000 <=? c) && (c <=? 0x200A)
   || (c =? 0x2028) || (c =? 0x2029) || (c =? 0x202F) || (c =? 0x205F)
   || (c =? 0x3000))%N.

Definition caseless : Unicode :=
  {| lower := map lower_char; isspace := isspace_char |}.

(** A row with only its key set. *)
Definition blank_row (pk : Z) : Row.t :=
  {| Row.id := pk; Row.title := None; Row.architect := None;
     Row.year := None; Row.address := None; Row.latitude := None;
     Row.longitude := None; Row.category := None; Row.big_category := None;
     Row.description := None; Row.image_url := None; Row.tags := None;
     Row.prefecture := None; Row.contractor := None;
     Row.structural_designer := None; Row.landscape_designer := None;
     Row.shinkenchiku_url := None |}.

(** A row with the five indexed columns set. *)
Definition sample_row (pk : Z) (title architect : option pystr)
    (year : option Z) (address category : option pystr) : Row.t :=
  {| Row.id := pk; Row.title := title; Row.architect := architect;
     Row.year := year; Row.address := address; Row.latitude := None;
     Row.longitude := None; Row.category := category;
     Row.big_category := None; Row.description := None;
     Row.image_url := None; Row.tags := None; Row.prefecture := None;
     Row.contractor := None; Row.structural_designer := None;
     Row.landscape_designer := None; Row.shinkenchiku_url := None |}.

(** A world in which nothing raises. *)
Definition calm (rows : list Row.t) (clock : pystr) : world :=
  {| table := rows; raises := λ _, false; opens := λ _, true;
     now := clock |}.

(** An empty output directory and an empty trace. *)
Definition fresh : state := {| files := ∅; trace := [] |}.

(** ** Reading a run *)

(** The operations called, in order, and the number of [conn.close()]. *)
Definition calls (t : list event) : list op :=
  omap (λ e, match e with Called o => Some o | Closed => None end) t.

Definition closes (t : list event) : nat :=
  length (omap (λ e, match e with Closed => Some () | Called _ => None end) t).

(** The operations of a list that are reached when the first one that
    raises ends the run. *)
Fixpoint until_raise (raising : op → bool) (ops : list op) : list op :=
  match ops with
  | [] => []
  | o :: ops => o :: (if raising o then [] else until_raise raising ops)
  end.

(** [total_count] and [total_pages] of the run (lines 38 and 43). *)
Definition total_count (w : world) : Z := Z.of_nat (length (table w)).

Definition total_pages (w : world) : Z :=
  ceil_div (total_count w) items_per_page.

(** [all_items] once the paging loop is over, and [page_data] of the
    iteration [page]. *)
Definition exported_items (rows : list Row.t) : list Item.t :=
  normalize <$> merge_sort pk_le rows.

Definition page_items (rows : list Row.t) (page : Z) : list Item.t :=
  normalize <$> select rows items_per_page (page * items_per_page).

(** The operations of one iteration of the paging loop, and of a whole run
    in which nothing raises. *)
Definition page_ops (output_dir : pystr) (page : Z) : list op :=
  [Select items_per_page (page * items_per_page);
   Write (page_file output_dir page)].

Definition plan (w : world) (db_path output_dir : pystr) : list op :=
  [Makedirs output_dir; Connect db_path; Count]
  ++ (seqZ 0 (total_pages w) ≫= page_ops output_dir)
  ++ [Write (index_file output_dir); Write (metadata_file output_dir);
      DirSize output_dir].

(** The files of such a run, in the order they are written. *)
Definition page_output (w : world) (output_dir : pystr) (page : Z)
  : pystr * content :=
  (page_file output_dir page,
   Dumped (page_json page (total_pages w) items_per_page (total_count w)
             (page_items (table w) page)) Compact).

Definition outputs `{Unicode} (w : world) (output_dir : pystr)
  : list (pystr * content) :=
  (page_output w output_dir <$> seqZ 0 (total_pages w))
  ++ [(index_file output_dir,
       Dumped (index_json (build_index (exported_items (table w)))) Compact);
      (metadata_file output_dir,
       Dumped (metadata_json (total_count w) (total_pages w) items_per_page
                 (now w)) Indent2)].

Definition write_all (out : list (pystr * content)) (m : gmap pystr content)
  : gmap pystr content :=
  foldl (λ m kv, <[kv.1 := kv.2]> m) m out.

(** ** Reading a document back *)

(** The value under a key of the object a path holds, as
    [json.load(open(path))[key]] gives it. *)
Definition member (key : pystr) (c : option content) : option json :=
  match c with
  | Some (Dumped (JDict d) _) => dict_get d key
  | _ => None
  end.

(** The records under [items] of a page file; none where the path does
    not hold a page document. *)
Definition items_in (c : option content) : list json :=
  match member (lit "items") c with
  | Some (JList l) => l
  | _ => []
  end.

(** ** The index as the specification words it

    For a facet, the keys a record is filed under, and the ids found under
    a key: the id of every record, in processing order, once for each time
    the key is among the keys of the record. *)

Definition postings (keys : Item.t → list pystr) (items : list Item.t)
    (k : pystr) : list Z :=
  items ≫= λ item, (λ _, Item.id item) <$> filter (k =.) (keys item).

(** A key with no id under it is no key of the facet. *)
Definition entry (ids : list Z) : option (list Z) :=
  match ids with
  | [] => None
  | _ => Some ids
  end.

Section Keys.
Context `{Unicode}.

(** The full lowercase architect name. *)
Definition spec_architect_keys (item : Item.t) : list pystr :=
  if decide (Item.architect item = architect_placeholder) then []
  else [lower (Item.architect item)].

(** The year as its decimal string. *)
Definition spec_year_keys (item : Item.t) : list pystr :=
  match Item.year item with
  | Some y => [str y]
  | None => []
  end.

(** The first three characters of each token, of length 2 at least, of
    the lowercase title split at white space. *)
Definition spec_title_keys (item : Item.t) : list pystr :=
  take 3 <$> filter (λ part, (2 ≤ length part)%nat)
                    (split (lower (Item.title item))).

(** The full lowercase category. *)
Definition spec_category_keys (item : Item.t) : list pystr :=
  match Item.category item with
  | Some (c :: s) => [lower (c :: s)]
  | _ => []
  end.

(** The first five characters of the lowercase address. *)
Definition spec_address_keys (item : Item.t) : list pystr :=
  if decide (Item.address item = address_placeholder) then []
  else [take 5 (lower (Item.address item))].
End Keys.

(** The facet that files every record, in processing order, under each of
    its keys. *)
Definition file_item (keys : Item.t → list pystr) (facet : dict (list Z))
    (item : Item.t) : dict (list Z) :=
  foldl (λ facet k, index_append k (Item.id item) facet) facet (keys item).

Definition file_items (keys : Item.t → list pystr) (items : list Item.t)
  : dict (list Z) :=
  foldl (file_item keys) [] items.

(** What normalization leaves in the fields the index tests: the three
    texts are not empty and a year is not zero. *)
Definition normal (item : Item.t) : Prop :=
  Item.title item ≠ [] ∧ Item.architect item ≠ []
  ∧ Item.address item ≠ [] ∧ ∀ y, Item.year item = Some y → 0 < y.

(** The ids under a key ([[]] for a key the facet does not have), and the
    facets in which every key has an id under it. *)
Definition ids_under (facet : dict (list Z)) (k : pystr) : list Z :=
  default [] (dict_get facet k).

Definition proper (facet : dict (list Z)) : Prop :=
  ∀ k, dict_get facet k ≠ Some [].

(** Three rows out of key order: the church of the specification, a row
    with nothing but its key, and a row whose texts are empty or short. *)
Definition sample_rows : list Row.t :=
  [ sample_row 42 (Some (lit "Church of the Light church"))
      (Some (lit "Tadao Ando")) (Some 1989) (Some (lit "Osaka, Ibaraki"))
      (Some (lit "Church"));
    blank_row 7;
    sample_row 3 (Some (lit "a bc  def")) None (Some 0) (Some []) None ].

(** [n] rows with the keys [n] down to 1. *)
Definition numbered_rows (n : Z) : list Row.t :=
  blank_row <$> reverse (seqZ 1 n).

(** A world in which writing one path raises, in [json.dump], and nothing
    else. *)
Definition write_raises (path : pystr) (rows : list Row.t) (clock : pystr)
  : world :=
  {| table := rows;
     raises := λ o, match o with
                    | Write p => bool_decide (p = path)
                    | _ => false
                    end;
     opens := λ _, true;
     now := clock |}.

(** A world in which opening one path raises, and nothing else. *)
Definition open_raises (path : pystr) (rows : list Row.t) (clock : pystr)
  : world :=
  {| table := rows;
     raises := λ o, match o with
                    | Write p => bool_decide (p = path)
                    | _ => false
                    end;
     opens := λ _, false;
     now := clock |}.

(** ** A run as a script

    The export has no branch but the one an exception takes: it is a
    straight line of operations, some of which dump a document.  [script]
    lists them with the document each write is to dump, and [perform]
    carries a script out up to the first operation that raises. *)

Definition page_script (w : world) (output_dir : pystr) (page : Z)
  : list (op * option content) :=
  [(Select items_per_page (page * items_per_page), None);
   (Write (page_file output_dir page),
    Some (Dumped (page_json page (total_pages w) items_per_page
                    (total_count w) (page_items (table w) page)) Compact))].

Definition script `{Unicode} (w : world) (db_path output_dir : pystr)
  : list (op * option content) :=
  [(Makedirs output_dir, None); (Connect db_path, None); (Count, None)]
  ++ (seqZ 0 (total_pages w) ≫= page_script w output_dir)
  ++ [(Write (index_file output_dir),
       Some (Dumped (index_json (build_index (exported_items (table w))))
               Compact));
      (Write (metadata_file output_dir),
       Some (Dumped (metadata_json (total_count w) (total_pages w)
                       items_per_page (now w)) Indent2));
      (DirSize output_dir, None)].

(** One operation: it is recorded, and a write leaves its document; when
    it raises it leaves a torn file if [open] had returned, and the path
    as it was if not. *)
Definition effect (raising : op → bool) (opening : pystr → bool)
    (step : op * option content) (s : state) : state :=
  let s := record (Called step.1) s in
  match step with
  | (Write path, Some c) =>
      if raising (Write path)
      then (if opening path then store path Torn s else s)
      else store path c s
  | _ => s
  end.

Fixpoint perform (raising : op → bool) (opening : pystr → bool)
    (steps : list (op * option content)) (s : state) : state :=
  match steps with
  | [] => s
  | step :: steps =>
      let s := effect raising opening step s in
      if raising step.1 then s else perform raising opening steps s
  end.

(** The paths a script writes, with their documents. *)
Definition writes_of (steps : list (op * option content))
  : list (pystr * content) :=
  omap (λ step, match step with
                | (Write path, Some c) => Some (path, c)
                | _ => None
                end) steps.

(** * The report of the code analysis

    [temp/code_analysis_infinite_loops.py]: the choice of the files to
    read, the grouping of state updates, and the report.  The regular
    expressions are matched by the interpreter: a function that reads
    matches takes them as an argument. *)

(** [pattern in s], on [str]: [pattern] is a run of [s]. *)
Fixpoint contains (pattern s : pystr) : bool :=
  bool_decide (pattern `prefix_of` s)
  || match s with
     | [] => false
     | _ :: s' => contains pattern s'
     end.

(** [skip_patterns] of [_is_relevant_file]. *)
Definition skip_patterns : list pystr :=
  [lit "node_modules"; lit "dist"; lit "build"; lit ".test."; lit ".spec.";
   lit "playwright-results"].

(** [CodeAnalyzer._is_relevant_file], on [path_str = str(file_path)]. *)
Definition is_relevant_file (path_str : pystr) : bool :=
  negb (existsb (λ pattern, contains pattern path_str) skip_patterns).

(** A dict of [self.issues] or [self.performance_issues], by key. *)
Module Issue.
Record t := Make {
  type : pystr;
  severity : pystr;
  file : pystr;
  line : Z;
  description : pystr;
  code_snippet : pystr;
  recommendation : pystr
}.
End Issue.

(** [content[:start].count('\n') + 1] *)
Definition line_of (content : pystr) (start : nat) : Z :=
  Z.of_nat (length (filter (λ c, c = 10%N) (take start content))) + 1.

(** The dicts [{'match': match, 'line': line_num}] of a group: a match is
    kept as its start, all that is read from it. *)
Definition update : Type := nat * Z.

(** The loop of [analyze_state_updates] over [setstate_matches]: the
    groups closed so far and the group in progress. *)
Definition group_step (content : pystr)
    (st : list (list update) * list update) (start : nat)
  : list (list update) * list update :=
  let '(grouped_updates, current_group) := st in
  let line_num := line_of content start in
  if match last current_group with
     | None => true
     | Some u => bool_decide (line_num - u.2 ≤ 2)
     end
  then (grouped_updates, current_group ++ [(start, line_num)])
  else
    (if bool_decide (1 < length current_group)%nat
     then grouped_updates ++ [current_group]
     else grouped_updates,
     [(start, line_num)]).

Definition group_updates (content : pystr) (setstate_matches : list nat)
  : list (list update) :=
  let '(grouped_updates, current_group) :=
    foldl (group_step content) ([], []) setstate_matches in
  if bool_decide (1 < length current_group)%nat
  then grouped_updates ++ [current_group]
  else grouped_updates.

(** The issue appended for a group of more than three updates;
    [first_line] is [group[0]['line']], of a group that is not empty. *)
Definition state_updates_issue (file : pystr) (group : list update)
  : Issue.t :=
  let first_line := default 0 (snd <$> head group) in
  let n := str (Z.of_nat (length group)) in
  {| Issue.type := lit "multiple_state_updates";
     Issue.severity := lit "medium";
     Issue.file := file;
     Issue.line := first_line;
     Issue.description :=
       lit "Multiple state updates in proximity (" ++ n
       ++ lit ") - may cause re-renders";
     Issue.code_snippet :=
       n ++ lit " state updates near line " ++ str first_line;
     Issue.recommendation :=
       lit "Consider batching state updates or using useReducer" |}.

(** [analyze_state_updates]: what it appends to
    [self.performance_issues], for the matches of [setstate_pattern] in
    [content], in the order [re.finditer] gives them; [file] is the path
    of the file below the base path. *)
Definition analyze_state_updates (content : pystr) (file : pystr)
    (setstate_matches : list nat) : list Issue.t :=
  state_updates_issue file
    <$> filter (λ group, (3 < length group)%nat)
               (group_updates content setstate_matches).

(** A dict of the list [generate_recommendations] returns. *)
Module Recommendation.
Record t := Make {
  priority : pystr;
  category : pystr;
  issue : pystr;
  action : pystr;
  impact : pystr
}.
End Recommendation.

(** [[i for i in issues if i['severity'] == level]] *)
Definition of_severity (level : pystr) (issues : list Issue.t)
  : list Issue.t :=
  filter (λ i, Issue.severity i = level) issues.

(** [CodeAnalyzer.generate_recommendations], on [self.issues]. *)
Definition generate_recommendations (issues : list Issue.t)
  : list Recommendation.t :=
  let recommendations := [] in
  let critical_count :=
    Z.of_nat (length (of_severity (lit "critical") issues)) in
  let recommendations :=
    if bool_decide (critical_count > 0)
    then recommendations ++ [
      {| Recommendation.priority := lit "immediate";
         Recommendation.category := lit "critical_bugs";
         Recommendation.issue := str critical_count ++ lit " critical issues found";
         Recommendation.action :=
           lit "Fix infinite loops and blocking operations immediately";
         Recommendation.impact :=
           lit "These issues can cause complete application freeze" |}]
    else recommendations in
  let high_count := Z.of_nat (length (of_severity (lit "high") issues)) in
  let recommendations :=
    if bool_decide (high_count > 0)
    then recommendations ++ [
      {| Recommendation.priority := lit "high";
         Recommendation.category := lit "performance_blocking";
         Recommendation.issue := str high_count
                  ++ lit " high-severity performance issues";
         Recommendation.action := lit "Address useEffect dependency issues and async operation problems";
         Recommendation.impact := lit "These issues likely cause the loading to get stuck" |}]
    else recommendations in
  let db_issues :=
    filter (λ i, Issue.type i ∈ [lit "db_operation_in_loop";
                                 lit "missing_error_handling"]) issues in
  let recommendations :=
    match db_issues with
    | [] => recommendations
    | _ => recommendations ++ [
      {| Recommendation.priority := lit "high";
         Recommendation.category := lit "database_performance";
         Recommendation.issue := str (Z.of_nat (length db_issues))
                  ++ lit " database performance issues";
         Recommendation.action := lit "Optimize database operations and add proper error handling";
         Recommendation.impact := lit "Database bottlenecks are likely causing slow loading" |}]
    end in
  let memory_issues :=
    filter (λ i, contains (lit "memory_leak") (Issue.type i) = true)
           issues in
  let recommendations :=
    match memory_issues with
    | [] => recommendations
    | _ => recommendations ++ [
      {| Recommendation.priority := lit "medium";
         Recommendation.category := lit "memory_management";
         Recommendation.issue := str (Z.of_nat (length memory_issues))
                  ++ lit " potential memory leak sources";
         Recommendation.action := lit "Add proper cleanup for event listeners and subscriptions";
         Recommendation.impact := lit "Memory leaks cause performance degradation over time" |}]
    end in
  recommendations.

(** The dict [analysis_summary] and the report around it.  The keys
    [critical_issues] and [performance_issues] of the summary are the
    fields [critical_issues_count] and [performance_issues_count]: the
    report has lists under the same keys. *)
Record analysis_summary := Summary {
  total_issues : Z;
  critical_issues_count : Z;
  high_severity : Z;
  medium_severity : Z;
  low_severity : Z;
  performance_issues_count : Z
}.

Record report := Report {
  report_timestamp : pystr;
  summary : analysis_summary;
  critical_issues : list Issue.t;
  high_priority_issues : list Issue.t;
  all_issues : list Issue.t;
  performance_issues : list Issue.t;
  recommendations : list Recommendation.t
}.

(** [CodeAnalyzer.generate_report]; [timestamp] is the modification time
    of the script, as [str] gives it. *)
Definition generate_report (timestamp : pystr)
    (issues performance_issues : list Issue.t) : report :=
  {| report_timestamp := timestamp;
     summary :=
       {| total_issues := Z.of_nat (length issues);
          critical_issues_count :=
            Z.of_nat (length (of_severity (lit "critical") issues));
          high_severity := Z.of_nat (length (of_severity (lit "high") issues));
          medium_severity :=
            Z.of_nat (length (of_severity (lit "medium") issues));
          low_severity := Z.of_nat (length (of_severity (lit "low") issues));
          performance_issues_count :=
            Z.of_nat (length performance_issues) |};
     critical_issues := of_severity (lit "critical") issues;
     high_priority_issues := of_severity (lit "high") issues;
     all_issues := issues;
     performance_issues := performance_issues;
     recommendations := generate_recommendations issues |}.

(** The matches with their line numbers, and the groups in which every
    update is at most two lines after the one before it. *)
Definition with_lines (content : pystr) (setstate_matches : list nat)
  : list update :=
  (λ start, (start, line_of content start)) <$> setstate_matches.

Definition nearby (group : list update) : Prop :=
  ∀ i u v, group !! i = Some u → group !! S i = Some v → v.2 - u.2 ≤ 2.

(** * The log of the coordinator

    [tmp/coordinator_map_orchestration.py]: the messages that
    [MapImplementationCoordinator.send_message] appends to
    [self.communication_log] and the count of their types in the report.
    The coroutine has no [await]: it runs from its call to its end. *)

(** A dict [message], by key. *)
Module Message.
Record t := Make {
  timestamp : pystr;
  sender : pystr;
  recipient : pystr;
  type : pystr;
  content : json
}.
End Message.

(** [send_message], on [self.communication_log]; [clock] is the value of
    [datetime.now().isoformat()]. *)
Definition send_message (clock : pystr) (sender_id : pystr)
    (recipient_id : option pystr) (message_type : pystr) (content : json)
    (communication_log : list Message.t) : list Message.t :=
  let message :=
    {| Message.timestamp := clock;
       Message.sender := sender_id;
       Message.recipient := py_or recipient_id (lit "BROADCAST");
       Message.type := message_type;
       Message.content := content |} in
  communication_log ++ [message].

(** The loop that counts the message types (lines 153-156):
    [message_types[msg_type] = message_types.get(msg_type, 0) + 1]. *)
Definition count_message_types (communication_log : list Message.t)
  : dict Z :=
  foldl (λ message_types msg,
           let msg_type := Message.type msg in
           dict_set msg_type
             (default 0 (dict_get message_types msg_type) + 1)
             message_types)
        [] communication_log.

(** The sum of the values of a dict of counts. *)
Definition sum_values (counts : dict Z) : Z := foldr Z.add 0 counts.*2.

(** * Properties *)

(** ** Normalization *)

Lemma py_or_present (x : option pystr) (default s : pystr) :
  x = Some s → s ≠ [] → py_or x default = s.
Proof. intros -> Hs. by destruct s. Qed.

Lemma py_or_missing (x : option pystr) (default : pystr) :
  x = None ∨ x = Some [] → py_or x default = default.
Proof. by intros [-> | ->]. Qed.

Lemma py_or_nonempty (x : option pystr) (default : pystr) :
  default ≠ [] → py_or x default ≠ [].
Proof. intros Hd. by destruct x as [[|c s]|]. Qed.

Lemma normalize_year_Some (y : option Z) (n : Z) :
  normalize_year y = Some n ↔ y = Some n ∧ 0 < n.
Proof.
  unfold normalize_year, truthy_int. destruct y as [m|]; [|by split; [|intros []]].
  rewrite Z.gtb_ltb.
  destruct (Z.eqb_spec m 0), (Z.ltb_spec 0 m); simpl;
    (split; [intros ? | intros [? ?]]; simplify_eq; try done; lia).
Qed.

Lemma normalize_year_None (y : option Z) :
  normalize_year y = None ↔ ∀ n, y = Some n → n ≤ 0.
Proof.
  unfold normalize_year, truthy_int. destruct y as [m|]; [|done].
  rewrite Z.gtb_ltb.
  destruct (Z.eqb_spec m 0), (Z.ltb_spec 0 m); simpl;
    (split; [intros ? n' ? | intros Hn; try specialize (Hn m eq_refl)];
     simplify_eq; try done; lia).
Qed.

(** C3: the year of the normalized record is the raw year exactly when
    the raw year is an integer above zero; it is absent in every other
    case, that is when the raw year is null, zero or negative, and so it is
    never zero or negative. *)
Theorem C3_year_positive_or_absent (row : Row.t) :
  (∀ y, Item.year (normalize row) = Some y ↔ Row.year row = Some y ∧ 0 < y)
  ∧ (Item.year (normalize row) = None ↔ ∀ y, Row.year row = Some y → y ≤ 0).
Proof.
  split.
  - intros y. apply normalize_year_Some.
  - apply normalize_year_None.
Qed.

(** The three rows of the specification: 1923 is kept, 0 and -5 are
    dropped. *)
Example normalize_year_1923 :
  normalize_year (Some 1923) = Some 1923
  ∧ normalize_year (Some 0) = None
  ∧ normalize_year (Some (-5)) = None
  ∧ normalize_year None = None.
Proof. done. Qed.

(** C4: title, architect and address become their placeholder when the
    column is null or the empty string and are the column's text
    otherwise; the twelve other columns are copied as they are, null
    included; and equal rows give equal records, normalization being a
    function of the row alone. *)
Theorem C4_normalize_fields (row : Row.t) :
  let item := normalize row in
  ((Row.title row = None ∨ Row.title row = Some [] →
      Item.title item = title_placeholder)
   ∧ (∀ s, Row.title row = Some s → s ≠ [] → Item.title item = s))
  ∧ ((Row.architect row = None ∨ Row.architect row = Some [] →
        Item.architect item = architect_placeholder)
     ∧ (∀ s, Row.architect row = Some s → s ≠ [] → Item.architect item = s))
  ∧ ((Row.address row = None ∨ Row.address row = Some [] →
        Item.address item = address_placeholder)
     ∧ (∀ s, Row.address row = Some s → s ≠ [] → Item.address item = s))
  ∧ (Item.id item = Row.id row
     ∧ Item.latitude item = Row.latitude row
     ∧ Item.longitude item = Row.longitude row
     ∧ Item.category item = Row.category row
     ∧ Item.big_category item = Row.big_category row
     ∧ Item.description item = Row.description row
     ∧ Item.image_url item = Row.image_url row
     ∧ Item.tags item = Row.tags row
     ∧ Item.prefecture item = Row.prefecture row
     ∧ Item.contractor item = Row.contractor row
     ∧ Item.structural_designer item = Row.structural_designer row
     ∧ Item.landscape_designer item = Row.landscape_designer row
     ∧ Item.shinkenchiku_url item = Row.shinkenchiku_url row)
  ∧ (∀ row', row' = row → normalize row' = item).
Proof.
  simpl. repeat split; try done.
  - apply py_or_missing.
  - apply py_or_present.
  - apply py_or_missing.
  - apply py_or_present.
  - apply py_or_missing.
  - apply py_or_present.
  - by intros ? ->.
Qed.

Lemma normalize_normal (row : Row.t) : normal (normalize row).
Proof.
  repeat split; simpl; try by apply py_or_nonempty.
  intros y Hy. by apply normalize_year_Some in Hy as [_ ?].
Qed.

(** ** Dictionaries *)

Section Dict.
Context {V : Type}.
Implicit Types (d : dict V) (k : pystr) (v : V).

Lemma dict_get_set d k v k' :
  dict_get (dict_set k v d) k' =
    if decide (k = k') then Some v else dict_get d k'.
Proof.
  induction d as [|[k0 v0] d IH]; simpl.
  - by repeat case_decide.
  - repeat (case_decide; simpl; simplify_eq); rewrite ?IH;
      repeat case_decide; done.
Qed.

Lemma dict_get_Some_keys d k :
  is_Some (dict_get d k) ↔ k ∈ dict_keys d.
Proof.
  unfold dict_keys. induction d as [|[k0 v0] d IH]; simpl.
  - rewrite elem_of_nil. split; [by intros [? ?]|done].
  - rewrite elem_of_cons. case_decide; simplify_eq.
    + split; eauto.
    + rewrite IH. split; [by right | by intros [?|?]].
Qed.

Lemma dict_keys_set d k v :
  dict_keys (dict_set k v d) =
    if decide (k ∈ dict_keys d) then dict_keys d else dict_keys d ++ [k].
Proof.
  unfold dict_keys. induction d as [|[k0 v0] d IH]; simpl.
  - done.
  - destruct (decide (k0 = k)) as [->|Hne]; csimpl.
    + rewrite decide_True; [done|]. apply elem_of_cons; by left.
    + rewrite IH. destruct (decide (k ∈ d.*1)) as [Hin|Hin].
      * rewrite decide_True; [done|]. apply elem_of_cons; by right.
      * rewrite decide_False; [done|].
        intros [?|?]%elem_of_cons; by simplify_eq.
Qed.

Lemma dict_set_NoDup d k v :
  NoDup (dict_keys d) → NoDup (dict_keys (dict_set k v d)).
Proof.
  intros Hd. rewrite dict_keys_set. case_decide; [done|].
  apply NoDup_app. split_and!; [done| |apply NoDup_singleton].
  intros x Hx ->%list_elem_of_singleton. done.
Qed.
End Dict.

(** What the three lines of a facet do to a lookup. *)
Lemma index_append_get facet key i k :
  dict_get (index_append key i facet) k =
    if decide (key = k) then Some (default [] (dict_get facet key) ++ [i])
    else dict_get facet k.
Proof.
  unfold index_append. destruct (dict_get facet key) as [ids|] eqn:Hget.
  - rewrite Hget, dict_get_set. by case_decide.
  - rewrite dict_get_set, decide_True by done.
    rewrite !dict_get_set. by case_decide.
Qed.

Lemma index_append_NoDup facet key i :
  NoDup (dict_keys facet) → NoDup (dict_keys (index_append key i facet)).
Proof.
  intros Hd. unfold index_append.
  destruct (dict_get facet key) as [ids|] eqn:Hget.
  - rewrite Hget. by apply dict_set_NoDup.
  - rewrite dict_get_set, decide_True by done.
    by do 2 apply dict_set_NoDup.
Qed.

Lemma proper_get facet k :
  proper facet → dict_get facet k = entry (ids_under facet k).
Proof.
  intros Hp. unfold ids_under. specialize (Hp k).
  by destruct (dict_get facet k) as [[|i ids]|].
Qed.

Lemma index_append_ids facet key i k :
  ids_under (index_append key i facet) k =
    ids_under facet k ++ (if decide (k = key) then [i] else []).
Proof.
  unfold ids_under. rewrite index_append_get.
  destruct (decide (key = k)) as [->|Hne].
  - by rewrite decide_True.
  - rewrite decide_False by done. by rewrite app_nil_r.
Qed.

Lemma index_append_proper facet key i :
  proper facet → proper (index_append key i facet).
Proof.
  intros Hp k. rewrite index_append_get. case_decide; [|apply Hp].
  intros [=Heq]. by apply app_nil in Heq as [_ ?].
Qed.

(** ** Filing records under keys *)

Section Filing.
Context (keys : Item.t → list pystr).

Lemma file_keys_ids (ks : list pystr) i facet k :
  ids_under (foldl (λ facet k', index_append k' i facet) facet ks) k =
    ids_under facet k ++ ((λ _, i) <$> filter (k =.) ks).
Proof.
  revert facet. induction ks as [|k0 ks IH]; intros facet; simpl.
  - by rewrite app_nil_r.
  - rewrite IH, index_append_ids, <-(assoc_L (++)). f_equal.
    rewrite filter_cons. by case_decide.
Qed.

Lemma file_keys_proper (ks : list pystr) i facet :
  proper facet →
  proper (foldl (λ facet k', index_append k' i facet) facet ks).
Proof.
  revert facet. induction ks as [|k0 ks IH]; intros facet Hp; simpl.
  - done.
  - by apply IH, index_append_proper.
Qed.

Lemma file_keys_NoDup (ks : list pystr) i facet :
  NoDup (dict_keys facet) →
  NoDup (dict_keys (foldl (λ facet k', index_append k' i facet) facet ks)).
Proof.
  revert facet. induction ks as [|k0 ks IH]; intros facet Hp; simpl.
  - done.
  - by apply IH, index_append_NoDup.
Qed.

Lemma file_items_ids items facet k :
  ids_under (foldl (file_item keys) facet items) k =
    ids_under facet k ++ postings keys items k.
Proof.
  revert facet. induction items as [|item items IH]; intros facet; simpl.
  - by rewrite app_nil_r.
  - rewrite IH. unfold file_item at 1. rewrite file_keys_ids.
    by rewrite <-(assoc_L (++)).
Qed.

Lemma file_items_proper items facet :
  proper facet → proper (foldl (file_item keys) facet items).
Proof.
  revert facet. induction items as [|item items IH]; intros facet Hp; simpl.
  - done.
  - by apply IH, file_keys_proper.
Qed.

Lemma file_items_NoDup items :
  NoDup (dict_keys (file_items keys items)).
Proof.
  unfold file_items. generalize (NoDup_nil_2 (A:=pystr)).
  change [] with (dict_keys (V:=list Z) []) at 1.
  generalize (@nil (pystr * list Z)).
  induction items as [|item items IH]; intros facet Hp; simpl.
  - done.
  - by apply IH, file_keys_NoDup.
Qed.

(** A facet built by filing holds, under each key, the postings of the
    key, and has no other keys. *)
Lemma file_items_get items k :
  dict_get (file_items keys items) k = entry (postings keys items k).
Proof.
  unfold file_items. rewrite proper_get.
  - by rewrite file_items_ids.
  - by apply file_items_proper.
Qed.

Lemma elem_of_postings items k i :
  i ∈ postings keys items k ↔
    ∃ item, item ∈ items ∧ Item.id item = i ∧ k ∈ keys item.
Proof.
  unfold postings. rewrite list_elem_of_bind. split.
  - intros (item & Hi & Hitem). exists item.
    apply list_elem_of_fmap in Hi as (k' & -> & Hk').
    by apply list_elem_of_filter in Hk' as [<- ?].
  - intros (item & Hitem & <- & Hk). exists item. split; [|done].
    apply list_elem_of_fmap. exists k. split; [done|].
    by apply list_elem_of_filter.
Qed.

Lemma postings_sorted items k :
  StronglySorted Z.le (Item.id <$> items) →
  StronglySorted Z.le (postings keys items k).
Proof.
  unfold postings. induction items as [|item items IH]; csimpl.
  - constructor.
  - intros [Hle Hs]%StronglySorted_cons. apply StronglySorted_app.
    split_and!.
    + intros i j (k' & -> & _)%list_elem_of_fmap Hj.
      apply elem_of_postings in Hj as (item' & Hin & <- & _).
      rewrite Forall_forall in Hle. apply Hle.
      by apply list_elem_of_fmap_2.
    + induction (filter (k =.) (keys item)) as [|k' l IHl]; csimpl.
      * constructor.
      * constructor; [done|]. apply Forall_forall.
        by intros j (? & -> & _)%list_elem_of_fmap.
    + by apply IH.
Qed.
End Filing.

(** ** The loop over [all_items] files records *)

Section IndexFacets.
Context `{Unicode}.

Lemma on_titles_on_titles f g x :
  on_titles f (on_titles g x) = on_titles (f ∘ g) x.
Proof. by destruct x. Qed.

Lemma index_title_parts i parts x :
  foldl (index_title_part i) x parts =
    on_titles
      (λ facet, foldl (λ facet k, index_append k i facet) facet
                  (take 3 <$> filter (λ part, (2 ≤ length part)%nat) parts))
      x.
Proof.
  revert x. induction parts as [|part parts IH]; intros x; simpl.
  - by destruct x.
  - rewrite IH, filter_cons. unfold index_title_part.
    destruct (decide (2 ≤ length part)%nat) as [Hlen|Hlen].
    + rewrite bool_decide_eq_true_2 by done. by rewrite on_titles_on_titles.
    + by rewrite bool_decide_eq_false_2 by done.
Qed.

(** One turn of the loop files the record in each of the five facets,
    under the keys of the facet. *)
Lemma index_item_facets x item :
  normal item →
  index_item x item =
    {| architects := file_item spec_architect_keys (architects x) item;
       years := file_item spec_year_keys (years x) item;
       categories := file_item spec_category_keys (categories x) item;
       titles := file_item spec_title_keys (titles x) item;
       addresses := file_item spec_address_keys (addresses x) item |}.
Proof.
  intros (Htitle & Harch & Haddr & Hyear). destruct x as [xa xy xc xt xd].
  unfold index_item, index_address, index_category, index_title,
    index_year, index_architect, file_item, spec_architect_keys,
    spec_year_keys, spec_category_keys, spec_title_keys, spec_address_keys.
  destruct item as [i title architect year address ? ? category
                      ? ? ? ? ? ? ? ? ?]; simpl in *.
  rewrite index_title_parts.
  destruct title as [|? ?]; [done|].
  destruct architect as [|? ?]; [done|].
  destruct address as [|? ?]; [done|]. simpl.
  assert (truthy_int year = bool_decide (is_Some year)) as Hy.
  { destruct year as [y|]; simpl; [|done].
    specialize (Hyear y eq_refl). by destruct (Z.eqb_spec y 0); [lia|]. }
  destruct year as [y|], category as [[|? ?]|]; simpl in *;
    rewrite ?Hy; simpl; repeat case_decide;
    rewrite ?bool_decide_eq_true_2, ?bool_decide_eq_false_2 by done;
    done.
Qed.

Lemma index_items_facets x items :
  Forall normal items →
  foldl index_item x items =
    {| architects := foldl (file_item spec_architect_keys) (architects x) items;
       years := foldl (file_item spec_year_keys) (years x) items;
       categories := foldl (file_item spec_category_keys) (categories x) items;
       titles := foldl (file_item spec_title_keys) (titles x) items;
       addresses := foldl (file_item spec_address_keys) (addresses x) items |}.
Proof.
  intros Hn. revert x. induction Hn as [|item items Hitem _ IH]; intros x.
  - by destruct x.
  - simpl. by rewrite IH, index_item_facets.
Qed.

Lemma build_index_facets items :
  Forall normal items →
  build_index items =
    {| architects := file_items spec_architect_keys items;
       years := file_items spec_year_keys items;
       categories := file_items spec_category_keys items;
       titles := file_items spec_title_keys items;
       addresses := file_items spec_address_keys items |}.
Proof. apply index_items_facets. Qed.
End IndexFacets.

(** ** The order of the exported records *)

#[local] Instance pk_le_trans : Transitive pk_le.
Proof. unfold pk_le. intros ???. lia. Qed.

#[local] Instance pk_le_total : Total pk_le.
Proof. unfold pk_le. intros ??. lia. Qed.

Lemma exported_items_normal rows : Forall normal (exported_items rows).
Proof.
  unfold exported_items. apply Forall_fmap, Forall_true.
  intros row. apply normalize_normal.
Qed.

Lemma exported_ids rows :
  Item.id <$> exported_items rows = Row.id <$> merge_sort pk_le rows.
Proof. unfold exported_items. by rewrite <-list_fmap_compose. Qed.

Lemma exported_ids_sorted rows :
  StronglySorted Z.le (Item.id <$> exported_items rows).
Proof.
  rewrite exported_ids.
  apply (StronglySorted_fmap _ pk_le); [by intros ?? ?|].
  apply (StronglySorted_merge_sort _).
Qed.

Lemma exported_items_perm rows :
  exported_items rows ≡ₚ normalize <$> rows.
Proof. unfold exported_items. by rewrite merge_sort_Permutation. Qed.

(** ** Pages *)

Lemma ceil_div_spec (n : Z) :
  0 ≤ n →
  let pages := ceil_div n items_per_page in
  0 ≤ pages ∧ items_per_page * (pages - 1) < n ≤ items_per_page * pages.
Proof.
  intros Hn. unfold ceil_div, items_per_page. simpl.
  pose proof (Z.div_mod (- n) 50 ltac:(lia)) as Hdiv.
  pose proof (Z.mod_pos_bound (- n) 50 ltac:(lia)) as Hmod.
  lia.
Qed.

(** Cutting a list into [k] slices of [c] elements and joining them gives
    its first [k * c] elements. *)
Lemma slices_join {A} (c k : nat) (l : list A) :
  seq 0 k ≫= (λ p, take c (drop (p * c) l)) = take (k * c) l.
Proof.
  induction k as [|k IH].
  - by rewrite take_0.
  - rewrite seq_S, bind_app, IH. csimpl. rewrite app_nil_r.
    rewrite take_take_drop. f_equal. lia.
Qed.

Lemma select_slice rows (p : nat) :
  select rows items_per_page (Z.of_nat p * items_per_page) =
    take 50 (drop (p * 50) (merge_sort pk_le rows)).
Proof.
  unfold select, items_per_page. f_equal. f_equal. lia.
Qed.

Lemma seqZ_nat (n : Z) : seqZ 0 n = Z.of_nat <$> seq 0 (Z.to_nat n).
Proof.
  unfold seqZ. apply list_fmap_ext. intros _ i _. lia.
Qed.

(** The pages, joined in page order, are the rows in key order: the paging
    loop leaves every normalized row in [all_items], once. *)
Lemma pages_join rows :
  seqZ 0 (ceil_div (Z.of_nat (length rows)) items_per_page)
    ≫= page_items rows = exported_items rows.
Proof.
  pose proof (ceil_div_spec (Z.of_nat (length rows)) ltac:(lia)) as (Hp & _ & Hn).
  simpl in Hn. unfold items_per_page in Hn at 1.
  set (tp := ceil_div _ _) in *.
  rewrite seqZ_nat. unfold exported_items.
  transitivity (normalize <$>
    (seq 0 (Z.to_nat tp) ≫= λ p, take 50 (drop (p * 50) (merge_sort pk_le rows)))).
  - induction (seq 0 (Z.to_nat tp)) as [|p ps IH]; csimpl; [done|].
    rewrite fmap_app, IH. f_equal. unfold page_items.
    by rewrite select_slice.
  - rewrite slices_join, take_ge; [done|].
    rewrite (Permutation_length (merge_sort_Permutation pk_le rows)). lia.
Qed.

(** ** File names *)

Lemma digits_inj u v : digits u = digits v → u = v.
Proof.
  revert v. induction u; intros []; simpl; intros [=]; f_equal; auto.
Qed.

Lemma str_inj a b : str a = str b → a = b.
Proof.
  unfold str. intros Heq. apply DecimalZ.to_int_inj.
  destruct (Z.to_int a) as [u|u], (Z.to_int b) as [v|v].
  - f_equal. by apply digits_inj.
  - by destruct u.
  - by destruct v.
  - f_equal. injection Heq as Heq. by apply digits_inj.
Qed.

Lemma page_file_inj out p q : page_file out p = page_file out q → p = q.
Proof.
  unfold page_file. intros Heq. do 2 apply app_inv_head in Heq.
  apply app_inv_tail, str_inj in Heq. lia.
Qed.

Lemma page_file_not_index out p : page_file out p ≠ index_file out.
Proof.
  unfold page_file, index_file. intros Heq. apply app_inv_head in Heq.
  vm_compute (lit _) in Heq. discriminate.
Qed.

Lemma page_file_not_metadata out p : page_file out p ≠ metadata_file out.
Proof.
  unfold page_file, metadata_file. intros Heq. apply app_inv_head in Heq.
  vm_compute (lit _) in Heq. discriminate.
Qed.

Lemma index_file_not_metadata out : index_file out ≠ metadata_file out.
Proof.
  unfold index_file, metadata_file. intros Heq. apply app_inv_head in Heq.
  vm_compute in Heq. discriminate.
Qed.

(** ** Runs *)

Lemma normalize_rows_spec rows all_items :
  normalize_rows rows all_items =
    (normalize <$> rows, all_items ++ (normalize <$> rows)).
Proof.
  unfold normalize_rows.
  enough (∀ page_data,
    foldl (λ '(page_data, all_items) row,
             let item := normalize row in
             (page_data ++ [item], all_items ++ [item]))
          (page_data, all_items) rows =
      (page_data ++ (normalize <$> rows), all_items ++ (normalize <$> rows)))
    as Hgen by apply (Hgen []).
  revert all_items. induction rows as [|row rows IH]; intros acc pd; csimpl.
  - by rewrite !app_nil_r.
  - rewrite IH. by rewrite <-!(assoc_L (++)).
Qed.

Lemma until_raise_app raising ops1 ops2 :
  until_raise raising (ops1 ++ ops2) =
    if forallb (λ o, negb (raising o)) ops1
    then ops1 ++ until_raise raising ops2
    else until_raise raising ops1.
Proof.
  induction ops1 as [|o ops1 IH]; simpl; [done|].
  destruct (raising o); simpl; [done|]. rewrite IH.
  by destruct (forallb _ ops1).
Qed.

Lemma until_raise_calm raising ops :
  forallb (λ o, negb (raising o)) ops = true → until_raise raising ops = ops.
Proof.
  induction ops as [|o ops IH]; simpl; [done|].
  destruct (raising o); simpl; [done|]. intros Hc. by rewrite IH.
Qed.

Section Run.
Context `{Unicode} (w : world).

Lemma export_pages_cons out n tp page pages acc s :
  export_pages w out n tp (page :: pages) acc s =
    let query := Select items_per_page (page * items_per_page) in
    let path := page_file out page in
    let page_data := page_items (table w) page in
    let s1 := record (Called query) s in
    let s2 := record (Called (Write path)) s1 in
    if raises w query then (Exc SqliteError, s1)
    else if raises w (Write path)
    then (Exc OSError, if opens w path then store path Torn s2 else s2)
    else export_pages w out n tp pages (acc ++ page_data)
           (store path
              (Dumped (page_json page tp items_per_page n page_data) Compact)
              s2).
Proof.
  simpl. unfold mbind, M_bind, fetch_page, call, dump, mbind, M_bind.
  destruct (raises w (Select _ _)); [done|]. simpl.
  rewrite normalize_rows_spec. simpl.
  by destruct (raises w (Write _)).
Qed.

Lemma export_pages_run out pages acc s :
  let ops := pages ≫= page_ops out in
  let rs := export_pages w out (total_count w) (total_pages w) pages acc s in
  trace rs.2 = trace s ++ (Called <$> until_raise (raises w) ops)
  ∧ if forallb (λ o, negb (raises w o)) ops
    then rs.1 = Val (acc ++ (pages ≫= page_items (table w)))
         ∧ files rs.2 = write_all (page_output w out <$> pages) (files s)
    else ∃ e, rs.1 = Exc e.
Proof.
  revert acc s. induction pages as [|page pages IH]; intros acc s.
  - simpl. by rewrite !app_nil_r.
  - cbv zeta. rewrite export_pages_cons. csimpl.
    destruct (raises w (Select _ _)); simpl; [eauto|].
    destruct (raises w (Write _)); simpl.
    { destruct (opens w _); simpl; rewrite <-(assoc_L (++)); eauto. }
    match goal with
    | |- context [export_pages _ _ _ _ _ ?acc' ?s'] =>
        destruct (IH acc' s') as [Htrace Hres]
    end.
    rewrite Htrace. simpl. rewrite <-!(assoc_L (++)). split; [done|].
    destruct (forallb _ _); [|done].
    destruct Hres as [-> ->]. by rewrite <-(assoc_L (++)).
Qed.

Lemma export_body_unfold out s :
  export_body w out s =
    let n := total_count w in
    let tp := total_pages w in
    let index := index_file out in
    let metadata := metadata_file out in
    let s0 := record (Called Count) s in
    if raises w Count then (Exc SqliteError, s0) else
    match export_pages w out n tp (seqZ 0 tp) [] s0 with
    | (Exc e, s1) => (Exc e, s1)
    | (Val all_items, s1) =>
        let s2 := record (Called (Write index)) s1 in
        if raises w (Write index)
        then (Exc OSError, if opens w index then store index Torn s2 else s2)
        else
          let s3 :=
            record (Called (Write metadata))
              (store index
                 (Dumped (index_json (build_index all_items)) Compact) s2) in
          if raises w (Write metadata)
          then (Exc OSError,
                if opens w metadata then store metadata Torn s3 else s3)
          else
            let s4 :=
              record (Called (DirSize out))
                (store metadata
                   (Dumped (metadata_json n tp items_per_page (now w))
                      Indent2) s3) in
            if raises w (DirSize out) then (Exc OSError, s4)
            else (Val true, s4)
    end.
Proof.
  unfold export_body, count, total_size, dump, call, mbind, M_bind, mret,
    M_ret. cbv zeta.
  destruct (raises w Count); [done|].
  fold (total_count w). fold (total_pages w).
  destruct (export_pages _ _ _ _ _ _ _) as [[all_items|e] s1]; [|done].
  destruct (raises w (Write (index_file out))); [done|].
  destruct (raises w (Write (metadata_file out))); [done|].
  by destruct (raises w (DirSize out)).
Qed.

Lemma write_all_app out1 out2 m :
  write_all (out1 ++ out2) m = write_all out2 (write_all out1 m).
Proof. apply foldl_app. Qed.

Lemma export_body_run out s :
  let ops := Count :: (seqZ 0 (total_pages w) ≫= page_ops out)
               ++ [Write (index_file out); Write (metadata_file out);
                   DirSize out] in
  let rs := export_body w out s in
  trace rs.2 = trace s ++ (Called <$> until_raise (raises w) ops)
  ∧ if forallb (λ o, negb (raises w o)) ops
    then rs.1 = Val true
         ∧ files rs.2 = write_all (outputs w out) (files s)
    else ∃ e, rs.1 = Exc e.
Proof.
  cbv zeta. rewrite export_body_unfold. cbv zeta.
  simpl until_raise. simpl forallb.
  destruct (raises w Count); simpl; [eauto|].
  match goal with
  | |- context [export_pages _ _ _ _ ?ps ?acc ?s'] =>
      destruct (export_pages_run out ps acc s') as [Htrace Hres];
      destruct (export_pages w out (total_count w) (total_pages w) ps acc s')
        as [r s1] eqn:Hrun
  end.
  simpl in Htrace, Hres. rewrite until_raise_app, forallb_app.
  destruct (forallb _ (_ ≫= _)) eqn:Hcalm; simpl.
  2:{ destruct Hres as [e ->]. simpl.
      rewrite Htrace, <-(assoc_L (++)). eauto. }
  destruct Hres as [-> Hfiles].
  rewrite until_raise_calm in Htrace by done.
  assert (seqZ 0 (total_pages w) ≫= page_items (table w)
          = exported_items (table w)) as -> by apply pages_join.
  destruct (raises w (Write (index_file out))); simpl.
  { destruct (opens w _); simpl;
      rewrite Htrace, fmap_app, <-!(assoc_L (++)); eauto. }
  destruct (raises w (Write (metadata_file out))); simpl.
  { destruct (opens w _); simpl;
      rewrite Htrace, fmap_app, <-!(assoc_L (++)); eauto. }
  destruct (raises w (DirSize out)); simpl.
  { rewrite Htrace, fmap_app, <-!(assoc_L (++)). eauto. }
  rewrite Htrace, fmap_app, <-!(assoc_L (++)). split_and!; [done..|].
  unfold outputs. rewrite write_all_app. simpl. by rewrite Hfiles.
Qed.

Lemma export_unfold db out s :
  export_architecture_data w db out s =
    let s0 := record (Called (Makedirs out)) s in
    let s1 := record (Called (Connect db)) s0 in
    if raises w (Makedirs out) then (Exc OSError, s0)
    else if raises w (Connect db) then (Val false, s1)
    else
      let rs := export_body w out s1 in
      (match rs.1 with Val ok => Val ok | Exc _ => Val false end,
       record Closed rs.2).
Proof.
  unfold export_architecture_data, try_finally, try_except, connect, close,
    call, mbind, M_bind, mret, M_ret. cbv zeta.
  destruct (raises w (Makedirs out)); [done|].
  destruct (raises w (Connect db)); [done|]. simpl.
  by destruct (export_body _ _ _) as [[ok|e] s2].
Qed.

(** A run calls the operations of the plan up to the first that raises,
    closes the connection if it was opened, returns whether nothing
    raised, and leaves the planned files if so. *)
Lemma export_run db out s :
  let rs := export_architecture_data w db out s in
  let opened :=
    negb (raises w (Makedirs out)) && negb (raises w (Connect db)) in
  let ok := forallb (λ o, negb (raises w o)) (plan w db out) in
  trace rs.2 =
    trace s ++ (Called <$> until_raise (raises w) (plan w db out))
      ++ (if opened then [Closed] else [])
  ∧ rs.1 = (if raises w (Makedirs out) then Exc OSError else Val ok)
  ∧ (ok = true → files rs.2 = write_all (outputs w out) (files s)).
Proof.
  cbv zeta. rewrite export_unfold. cbv zeta.
  pose (body := Count :: (seqZ 0 (total_pages w) ≫= page_ops out)
                  ++ [Write (index_file out); Write (metadata_file out);
                      DirSize out]).
  change (plan w db out) with (Makedirs out :: Connect db :: body).
  pose proof (export_body_run out
                (record (Called (Connect db))
                   (record (Called (Makedirs out)) s))) as Hbody.
  cbv zeta in Hbody. fold body in Hbody. clearbody body.
  destruct Hbody as [Htrace Hres]. simpl.
  destruct (raises w (Makedirs out)); simpl; [done|].
  destruct (raises w (Connect db)); simpl.
  { by rewrite <-(assoc_L (++)). }
  destruct (export_body w out _) as [r s2].
  cbn [fst snd] in *. simpl in Htrace.
  rewrite Htrace, <-!(assoc_L (++)).
  split; [done|]. destruct (forallb _ _).
  - destruct Hres as [-> ->]. done.
  - destruct Hres as [e ->]. done.
Qed.
End Run.

(** ** Files and operations of a run are pairwise distinct *)

Lemma write_all_lookup_other out m path :
  path ∉ out.*1 → write_all out m !! path = m !! path.
Proof.
  unfold write_all. revert m.
  induction out as [|[k v] out IH]; intros m Hk; csimpl in *; [done|].
  apply not_elem_of_cons in Hk as [Hne Hk].
  rewrite IH by done. by rewrite lookup_insert_ne.
Qed.

Lemma write_all_lookup out m path c :
  NoDup out.*1 → (path, c) ∈ out → write_all out m !! path = Some c.
Proof.
  unfold write_all. revert m.
  induction out as [|[k v] out IH]; intros m Hnd Hin; csimpl in *.
  - by apply elem_of_nil in Hin.
  - apply NoDup_cons in Hnd as [Hk Hnd].
    apply elem_of_cons in Hin as [[= <- <-]|Hin].
    + fold (write_all out (<[path:=c]> m)).
      rewrite write_all_lookup_other by done. apply lookup_insert_eq.
    + by apply IH.
Qed.

Lemma elem_of_page_ops out pages o :
  o ∈ pages ≫= page_ops out ↔
    ∃ p, p ∈ pages ∧ (o = Select items_per_page (p * items_per_page)
                      ∨ o = Write (page_file out p)).
Proof.
  rewrite list_elem_of_bind. unfold page_ops.
  split; intros (p & Hp & Hq); exists p.
  - split; [done|].
    apply elem_of_cons in Hp as [->| ->%list_elem_of_singleton]; auto.
  - split; [|done]. destruct Hq as [-> | ->]; [left|right; left].
Qed.

Lemma page_ops_NoDup out pages :
  NoDup pages → NoDup (pages ≫= page_ops out).
Proof.
  induction 1 as [|p pages Hp Hnd IH]; csimpl; [constructor|].
  apply NoDup_cons. split.
  - intros [[=]|Hin]%elem_of_cons.
    apply elem_of_page_ops in Hin as (q & Hq & [[=Heq]|[=]]).
    unfold items_per_page in Heq. by replace q with p in Hq by lia.
  - apply NoDup_cons. split; [|done].
    intros (q & Hq & [[=]|[=Heq]])%elem_of_page_ops.
    apply page_file_inj in Heq. by subst.
Qed.

Lemma plan_NoDup w db out : NoDup (plan w db out).
Proof.
  unfold plan. apply NoDup_app. split_and!.
  - repeat (apply NoDup_cons; split;
            [rewrite ?elem_of_cons, elem_of_nil; intuition discriminate|]).
    constructor.
  - intros o Ho Hin. rewrite !elem_of_cons, elem_of_nil in Ho.
    rewrite elem_of_app, elem_of_page_ops, !elem_of_cons, elem_of_nil in Hin.
    destruct Hin as [(p & _ & Hin)|Hin]; destruct_or!; simplify_eq.
  - apply NoDup_app. split_and!.
    + apply page_ops_NoDup, NoDup_seqZ.
    + intros o (p & _ & Ho)%elem_of_page_ops Hin.
      rewrite !elem_of_cons, elem_of_nil in Hin.
      destruct_or!; simplify_eq.
      * by eapply page_file_not_index.
      * by eapply page_file_not_metadata.
    + repeat (apply NoDup_cons; split;
              [rewrite ?elem_of_cons, elem_of_nil; intros ?; destruct_or!;
               simplify_eq; try by eapply index_file_not_metadata|]).
      constructor.
Qed.

Lemma outputs_NoDup `{Unicode} w out : NoDup (outputs w out).*1.
Proof.
  unfold outputs. rewrite fmap_app, <-list_fmap_compose. csimpl.
  apply NoDup_app. split_and!.
  - apply NoDup_fmap_2_strong; [|apply NoDup_seqZ].
    intros p q _ _ Heq. by apply page_file_inj in Heq.
  - intros path (p & -> & _)%list_elem_of_fmap Hin. simpl in Hin.
    apply elem_of_cons in Hin as [Heq|Hin].
    { by apply page_file_not_index in Heq. }
    apply list_elem_of_singleton in Hin. by apply page_file_not_metadata in Hin.
  - apply NoDup_cons. split; [|apply NoDup_singleton].
    intros Heq%list_elem_of_singleton. by apply index_file_not_metadata in Heq.
Qed.

(** ** The exit status and the connection *)

Lemma calm_Forall raising (ops : list op) :
  forallb (λ o, negb (raising o)) ops = true ↔
    Forall (λ o, raising o = false) ops.
Proof.
  induction ops as [|o ops IH]; simpl.
  - split; [constructor|done].
  - rewrite Forall_cons, <-IH, andb_true_iff, negb_true_iff. done.
Qed.

Lemma calm_Exists raising (ops : list op) :
  forallb (λ o, negb (raising o)) ops = false ↔
    Exists (λ o, raising o = true) ops.
Proof.
  induction ops as [|o ops IH]; simpl.
  - split; [done|by intros ?%Exists_nil].
  - rewrite Exists_cons, <-IH, andb_false_iff, negb_false_iff. done.
Qed.

(** Where a run stops: with no operation that raises, at the end of the
    list; otherwise right after the first one that raises. *)
Lemma until_raise_stop raising (ops : list op) :
  (Forall (λ o, raising o = false) ops ∧ until_raise raising ops = ops)
  ∨ ∃ before o after,
      ops = before ++ o :: after
      ∧ Forall (λ o, raising o = false) before
      ∧ raising o = true
      ∧ until_raise raising ops = before ++ [o].
Proof.
  induction ops as [|o ops IH]; simpl.
  - left. split; [constructor|done].
  - destruct (raising o) eqn:Ho.
    + right. exists [], o, ops. by split_and!.
    + destruct IH as [[Hall ->]|(before & o' & after & -> & Hb & Ho' & ->)].
      * left. split; [by constructor|done].
      * right. exists (o :: before), o', after. split_and!; try done.
        by constructor.
Qed.

Lemma calls_app t1 t2 : calls (t1 ++ t2) = calls t1 ++ calls t2.
Proof. apply omap_app. Qed.

Lemma calls_Called ops : calls (Called <$> ops) = ops.
Proof.
  unfold calls. induction ops as [|o ops IH]; csimpl; [done|].
  by rewrite IH.
Qed.

Lemma closes_app t1 t2 : closes (t1 ++ t2) = (closes t1 + closes t2)%nat.
Proof. unfold closes. by rewrite omap_app, length_app. Qed.

Lemma closes_Called ops : closes (Called <$> ops) = 0%nat.
Proof.
  unfold closes. induction ops as [|o ops IH]; csimpl; [done|]. by rewrite IH.
Qed.

(** C8: the exit status is 0 exactly when no operation of the run raises,
    and then the planned files are all in place; it is 1 exactly when some
    operation raises, be it the connection, a query or a write.  The
    operations called are those of the plan up to the first that raises:
    nothing is called after it, and since the plan has no operation twice,
    nothing is tried again. *)
Theorem C8_exit_status `{Unicode} (w : world) (argv : list pystr) (s : state) :
  let db_path := argv_db_path argv in
  let output_dir := argv_output_dir argv in
  let ops := plan w db_path output_dir in
  let rs := main w argv s in
  (rs.1 = 0 ↔ Forall (λ o, raises w o = false) ops)
  ∧ (rs.1 = 1 ↔ Exists (λ o, raises w o = true) ops)
  ∧ (rs.1 = 0 → files rs.2 = write_all (outputs w output_dir) (files s))
  ∧ calls (trace rs.2) = calls (trace s) ++ until_raise (raises w) ops
  ∧ NoDup ops.
Proof.
  cbv zeta. rewrite <-calm_Forall, <-calm_Exists. unfold main.
  destruct (export_run w (argv_db_path argv) (argv_output_dir argv) s)
    as (Htrace & Hres & Hfiles).
  destruct (export_architecture_data _ _ _ _) as [r s'].
  cbn [fst snd] in *.
  assert (raises w (Makedirs (argv_output_dir argv)) = true →
          forallb (λ o, negb (raises w o))
            (plan w (argv_db_path argv) (argv_output_dir argv)) = false)
    as Hmk by (by intros Hr; simpl; rewrite Hr).
  assert (calls (trace s') =
          calls (trace s) ++ until_raise (raises w)
            (plan w (argv_db_path argv) (argv_output_dir argv))) as Hcalls.
  { rewrite Htrace, !calls_app, calls_Called.
    destruct (_ && _); simpl; by rewrite ?app_nil_r. }
  destruct (raises w (Makedirs _)) eqn:Hm.
  - rewrite Hmk by done. subst r. simpl.
    split_and!; try done. apply plan_NoDup.
  - subst r. destruct (forallb _ _); simpl.
    + split_and!; try done; auto. apply plan_NoDup.
    + split_and!; try done. apply plan_NoDup.
Qed.

(** With three rows and a first page that cannot be written, the status
    is 1 and the run ends at that write: no index, no manifest. *)
Example exit_status_page_write_raises :
  let w := write_raises (lit "out/page_1.json") sample_rows (lit "now") in
  let rs := main (H:=caseless) w [lit "export"; lit "db"; lit "out"] fresh in
  rs.1 = 1
  ∧ trace rs.2 =
      [Called (Makedirs (lit "out")); Called (Connect (lit "db"));
       Called Count; Called (Select 50 0);
       Called (Write (lit "out/page_1.json")); Closed].
Proof. by vm_compute. Qed.

(** C9: once [sqlite3.connect] has returned, the run closes the
    connection exactly once, as its last step, whatever raises afterwards:
    the count, a page query, or the write of a page, of the index or of
    the manifest. *)
Theorem C9_connection_closed_once `{Unicode} (w : world)
    (db_path output_dir : pystr) (s : state) :
  raises w (Makedirs output_dir) = false →
  raises w (Connect db_path) = false →
  let s' := (export_architecture_data w db_path output_dir s).2 in
  ∃ t, trace s' = trace s ++ t ++ [Closed]
       ∧ closes t = 0%nat
       ∧ closes (t ++ [Closed]) = 1%nat.
Proof.
  intros Hmk Hconn. cbv zeta.
  destruct (export_run w db_path output_dir s) as (Htrace & _ & _).
  rewrite Hmk, Hconn in Htrace. cbn [negb andb] in Htrace.
  eexists. split; [exact Htrace|].
  rewrite closes_app, closes_Called. done.
Qed.

Lemma C9_connection_closed_once_witness :
  let w := write_raises (lit "out/search_index.json") sample_rows (lit "now") in
  raises w (Makedirs (lit "out")) = false
  ∧ raises w (Connect (lit "db")) = false
  ∧ ∃ t, trace (export_architecture_data (H:=caseless) w (lit "db") (lit "out")
                  fresh).2
         = trace fresh ++ t ++ [Closed]
         ∧ closes t = 0%nat
         ∧ closes (t ++ [Closed]) = 1%nat.
Proof.
  split; [reflexivity|]. split; [reflexivity|].
  apply (C9_connection_closed_once (H:=caseless)); reflexivity.
Defined.

(** ** Runs in which nothing raises *)

Lemma calm_plan (w : world) (ops : list op) :
  (∀ o, raises w o = false) → forallb (λ o, negb (raises w o)) ops = true.
Proof. intros Hcalm. apply calm_Forall, Forall_forall. auto. Qed.

Lemma export_calm `{Unicode} (w : world) (db out : pystr) (s : state) :
  (∀ o, raises w o = false) →
  let rs := export_architecture_data w db out s in
  rs.1 = Val true
  ∧ files rs.2 = write_all (outputs w out) (files s)
  ∧ trace rs.2 = trace s ++ (Called <$> plan w db out) ++ [Closed].
Proof.
  intros Hcalm. cbv zeta.
  destruct (export_run w db out s) as (Htrace & Hres & Hfiles).
  rewrite until_raise_calm in Htrace by by apply calm_plan.
  rewrite calm_plan in Hres, Hfiles by done.
  rewrite (Hcalm (Makedirs out)) in Htrace, Hres.
  rewrite (Hcalm (Connect db)) in Htrace. auto.
Qed.

Lemma outputs_page `{Unicode} (w : world) (out : pystr) (p : Z) :
  0 ≤ p < total_pages w → page_output w out p ∈ outputs w out.
Proof.
  intros Hp. unfold outputs. apply elem_of_app. left.
  apply list_elem_of_fmap_2, elem_of_seqZ. lia.
Qed.

Lemma outputs_index `{Unicode} (w : world) (out : pystr) :
  (index_file out,
   Dumped (index_json (build_index (exported_items (table w)))) Compact)
  ∈ outputs w out.
Proof.
  unfold outputs. apply elem_of_app. right. apply elem_of_cons. by left.
Qed.

Lemma outputs_metadata `{Unicode} (w : world) (out : pystr) :
  (metadata_file out,
   Dumped (metadata_json (total_count w) (total_pages w) items_per_page
             (now w)) Indent2)
  ∈ outputs w out.
Proof.
  unfold outputs. apply elem_of_app. right.
  apply elem_of_cons. right. apply elem_of_cons. by left.
Qed.

(** The pages in terms of positions in key order: the item at offset [j]
    of page [p] is the item at position [50 p + j]. *)
Lemma page_items_lookup (rows : list Row.t) (p : Z) (j : nat) :
  0 ≤ p →
  page_items rows p !! j =
    if decide (j < 50)%nat
    then exported_items rows !! (Z.to_nat p * 50 + j)%nat
    else None.
Proof.
  intros Hp. unfold page_items, exported_items, select, items_per_page.
  rewrite !list_lookup_fmap. case_decide.
  - rewrite lookup_take_lt by (simpl; lia). rewrite lookup_drop.
    do 2 f_equal. lia.
  - rewrite lookup_take_ge by (simpl; lia). done.
Qed.

Lemma page_items_length (rows : list Row.t) (p : Z) :
  0 ≤ p →
  Z.of_nat (length (page_items rows p)) =
    Z.min 50 (Z.max 0 (Z.of_nat (length rows) - 50 * p)).
Proof.
  intros Hp. unfold page_items, select, items_per_page.
  rewrite length_fmap, length_take, length_drop.
  rewrite (Permutation_length (merge_sort_Permutation pk_le rows)). lia.
Qed.

Lemma opt_inj {A} (f : A → json) (x y : option A) :
  (∀ a, f a ≠ JNull) → (∀ a b, f a = f b → a = b) →
  opt f x = opt f y → x = y.
Proof.
  intros Hnull Hinj. destruct x as [a|], y as [b|]; simpl; intros Heq.
  - f_equal. by apply Hinj.
  - by apply Hnull in Heq.
  - symmetry in Heq. by apply Hnull in Heq.
  - done.
Qed.

Lemma bind_fmap_each {A B C} (f : B → C) (g : A → list B) (l : list A) :
  l ≫= (λ x, f <$> g x) = f <$> (l ≫= g).
Proof.
  induction l as [|x l IH]; csimpl; [done|]. by rewrite fmap_app, IH.
Qed.

(** The document of a record tells the record. *)
Lemma item_json_inj (a b : Item.t) : item_json a = item_json b → a = b.
Proof.
  destruct a, b. unfold item_json. simpl. intros Heq.
  injection Heq as -> -> -> Hyear -> Hlat Hlon Hcat Hbig Hdesc Himg Htags
    Hpref Hcont Hstruct Hland Hshin.
  apply opt_inj in Hyear; [|done|by intros ?? [=]].
  apply opt_inj in Hlat; [|done|by intros ?? [=]].
  apply opt_inj in Hlon; [|done|by intros ?? [=]].
  apply opt_inj in Hcat; [|done|by intros ?? [=]].
  apply opt_inj in Hbig; [|done|by intros ?? [=]].
  apply opt_inj in Hdesc; [|done|by intros ?? [=]].
  apply opt_inj in Himg; [|done|by intros ?? [=]].
  apply opt_inj in Htags; [|done|by intros ?? [=]].
  apply opt_inj in Hpref; [|done|by intros ?? [=]].
  apply opt_inj in Hcont; [|done|by intros ?? [=]].
  apply opt_inj in Hstruct; [|done|by intros ?? [=]].
  apply opt_inj in Hland; [|done|by intros ?? [=]].
  apply opt_inj in Hshin; [|done|by intros ?? [=]].
  by subst.
Qed.

(** With unique keys, two pages share no key. *)
Lemma pages_disjoint (rows : list Row.t) (p q : Z) (a b : Item.t) :
  NoDup (Row.id <$> rows) → 0 ≤ p → 0 ≤ q →
  a ∈ page_items rows p → b ∈ page_items rows q →
  Item.id a = Item.id b → p = q.
Proof.
  intros Hnd Hp Hq [i Hi]%list_elem_of_lookup [j Hj]%list_elem_of_lookup Hid.
  rewrite page_items_lookup in Hi, Hj by done.
  case_decide; [|done]. case_decide; [|done].
  assert (NoDup (Item.id <$> exported_items rows)) as Hnd'.
  { rewrite exported_ids. by rewrite merge_sort_Permutation. }
  assert ((Z.to_nat p * 50 + i)%nat = (Z.to_nat q * 50 + j)%nat) as Heq.
  { eapply NoDup_lookup; [exact Hnd'| |].
    - rewrite list_lookup_fmap, Hi. done.
    - rewrite list_lookup_fmap, Hj. simpl. by rewrite Hid. }
  lia.
Qed.

(** ** The pages *)

(** C1: in a run where nothing raises, the number of pages is the ceiling
    of the count over 50.  Page [p], counted from 0, is dumped to
    [page_<p+1>.json]: the file holds the object with the 1-based page
    number, the number of pages, the page size 50, the count, and under
    [items] the documents, of 17 keys each, of the slice of 50 rows at
    offset [50 p] of the rows in key order.  A document tells its record,
    so the page files partition the record set: the records read back from
    the files, in page order, are the documents of all the normalized rows
    in ascending key order; the keys in the files are those of the table;
    every row is in a page and, the keys being unique, no key is in two
    pages.  The run writes these pages, the index and the manifest and no
    other file; every page but the last holds 50 records and the last
    between 1 and 50. *)
Theorem C1_pages_partition `{Unicode} (w : world)
    (db_path output_dir : pystr) (s : state) :
  (∀ o, raises w o = false) →
  let n := total_count w in
  let pages := total_pages w in
  let page_data := page_items (table w) in
  let s' := (export_architecture_data w db_path output_dir s).2 in
  let path := λ p : Z,
    output_dir ++ lit "/page_" ++ str (p + 1) ++ lit ".json" in
  let sorted := merge_sort pk_le (table w) in
  let document := λ item : Item.t,
    JDict [(lit "id", JInt (Item.id item));
           (lit "title", JStr (Item.title item));
           (lit "architect", JStr (Item.architect item));
           (lit "year", opt JInt (Item.year item));
           (lit "address", JStr (Item.address item));
           (lit "latitude", opt JFloat (Item.latitude item));
           (lit "longitude", opt JFloat (Item.longitude item));
           (lit "category", opt JStr (Item.category item));
           (lit "big_category", opt JStr (Item.big_category item));
           (lit "description", opt JStr (Item.description item));
           (lit "image_url", opt JStr (Item.image_url item));
           (lit "tags", opt JStr (Item.tags item));
           (lit "prefecture", opt JStr (Item.prefecture item));
           (lit "contractor", opt JStr (Item.contractor item));
           (lit "structural_designer",
            opt JStr (Item.structural_designer item));
           (lit "landscape_designer",
            opt JStr (Item.landscape_designer item));
           (lit "shinkenchiku_url", opt JStr (Item.shinkenchiku_url item))] in
  n = Z.of_nat (length (table w))
  ∧ (0 ≤ pages ∧ 50 * (pages - 1) < n ≤ 50 * pages)
  ∧ (∀ p, 0 ≤ p < pages →
       files s' !! path p =
         Some (Dumped
                 (JDict [(lit "page", JInt (p + 1));
                         (lit "total_pages", JInt pages);
                         (lit "items_per_page", JInt 50);
                         (lit "total_items", JInt n);
                         (lit "items", JList (document <$> page_data p))])
                 Compact))
  ∧ (∀ p, 0 ≤ p →
       page_data p = normalize <$> take 50 (drop (Z.to_nat (50 * p)) sorted))
  ∧ (∀ a b, document a = document b → a = b)
  ∧ (seqZ 0 pages ≫= λ p, items_in (files s' !! path p))
    = document <$> (normalize <$> sorted)
  ∧ sorted ≡ₚ table w
  ∧ StronglySorted Z.le (Row.id <$> sorted)
  ∧ (seqZ 0 pages ≫= λ p, Item.id <$> page_data p) = Row.id <$> sorted
  ∧ (∀ row, row ∈ table w →
       ∃ p, 0 ≤ p < pages ∧ normalize row ∈ page_data p)
  ∧ (NoDup (Row.id <$> table w) →
     ∀ p q a b, 0 ≤ p < pages → 0 ≤ q < pages →
       a ∈ page_data p → b ∈ page_data q → Item.id a = Item.id b → p = q)
  ∧ calls (trace s') = calls (trace s) ++ plan w db_path output_dir
  ∧ seqZ 0 pages ≫= page_data = exported_items (table w)
  ∧ exported_items (table w) ≡ₚ normalize <$> table w
  ∧ StronglySorted Z.le (Item.id <$> exported_items (table w))
  ∧ (∀ p j, 0 ≤ p →
       page_data p !! j =
         if decide (j < 50)%nat
         then exported_items (table w) !! (Z.to_nat p * 50 + j)%nat
         else None)
  ∧ (∀ p, 0 ≤ p < pages - 1 → length (page_data p) = 50%nat)
  ∧ (0 < pages → (0 < length (page_data (pages - 1)%Z) ≤ 50)%nat).
Proof.
  intros Hcalm. cbv zeta.
  destruct (export_calm w db_path output_dir s Hcalm) as (_ & Hfiles & Htrace).
  pose proof (ceil_div_spec (total_count w) ltac:(unfold total_count; lia))
    as Hceil.
  cbv zeta in Hceil. fold (total_pages w) in Hceil.
  unfold items_per_page in Hceil.
  assert (∀ p, 0 ≤ p < total_pages w →
            files (export_architecture_data w db_path output_dir s).2
              !! (output_dir ++ lit "/page_" ++ str (p + 1) ++ lit ".json")
            = Some (Dumped (page_json p (total_pages w) 50 (total_count w)
                              (page_items (table w) p)) Compact)) as Hpage.
  { intros p Hp. rewrite Hfiles.
    apply write_all_lookup; [apply outputs_NoDup|].
    by apply (outputs_page w output_dir p). }
  pose proof (pages_join (table w)) as Hjoin.
  fold (total_count w) in Hjoin. fold (total_pages w) in Hjoin.
  split_and!.
  - done.
  - lia.
  - lia.
  - lia.
  - intros p Hp. by rewrite Hpage.
  - intros p Hp. unfold page_items, select, items_per_page.
    do 3 f_equal. lia.
  - apply item_json_inj.
  - transitivity (seqZ 0 (total_pages w)
                    ≫= λ p, item_json <$> page_items (table w) p).
    + apply Forall_bind_ext, Forall_forall. intros p Hp%elem_of_seqZ.
      by rewrite Hpage by lia.
    + transitivity (item_json <$> exported_items (table w)); [|done].
      rewrite <-Hjoin. apply bind_fmap_each.
  - apply merge_sort_Permutation.
  - rewrite <-exported_ids. apply exported_ids_sorted.
  - rewrite <-exported_ids, <-Hjoin. apply bind_fmap_each.
  - intros row Hrow.
    assert (normalize row ∈ exported_items (table w)) as Hin.
    { rewrite exported_items_perm. by apply list_elem_of_fmap_2. }
    rewrite <-Hjoin in Hin.
    apply list_elem_of_bind in Hin as (p & Hin & Hp%elem_of_seqZ).
    exists p. split; [lia|done].
  - intros Hnd p q a b Hp Hq Ha Hb Hid.
    apply (pages_disjoint (table w) p q a b); (done || lia).
  - rewrite Htrace, !calls_app, calls_Called. simpl. by rewrite app_nil_r.
  - done.
  - apply exported_items_perm.
  - apply exported_ids_sorted.
  - intros p j Hp. by apply page_items_lookup.
  - intros p Hp.
    pose proof (page_items_length (table w) p ltac:(lia)) as Hlen.
    unfold total_count in Hceil. lia.
  - intros Hp.
    pose proof (page_items_length (table w) (total_pages w - 1) ltac:(lia))
      as Hlen.
    unfold total_count in Hceil. lia.
Qed.

Lemma C1_pages_partition_witness :
  let w := calm (numbered_rows 120) (lit "2026-01-01T00:00:00") in
  let output_dir := lit "out" in
  let n := total_count w in
  let pages := total_pages w in
  let page_data := page_items (table w) in
  let s' := (export_architecture_data (H:=caseless) w (lit "db") output_dir
               fresh).2 in
  let path := λ p : Z,
    output_dir ++ lit "/page_" ++ str (p + 1) ++ lit ".json" in
  let sorted := merge_sort pk_le (table w) in
  let document := λ item : Item.t,
    JDict [(lit "id", JInt (Item.id item));
           (lit "title", JStr (Item.title item));
           (lit "architect", JStr (Item.architect item));
           (lit "year", opt JInt (Item.year item));
           (lit "address", JStr (Item.address item));
           (lit "latitude", opt JFloat (Item.latitude item));
           (lit "longitude", opt JFloat (Item.longitude item));
           (lit "category", opt JStr (Item.category item));
           (lit "big_category", opt JStr (Item.big_category item));
           (lit "description", opt JStr (Item.description item));
           (lit "image_url", opt JStr (Item.image_url item));
           (lit "tags", opt JStr (Item.tags item));
           (lit "prefecture", opt JStr (Item.prefecture item));
           (lit "contractor", opt JStr (Item.contractor item));
           (lit "structural_designer",
            opt JStr (Item.structural_designer item));
           (lit "landscape_designer",
            opt JStr (Item.landscape_designer item));
           (lit "shinkenchiku_url", opt JStr (Item.shinkenchiku_url item))] in
  (∀ o, raises w o = false)
  ∧ n = Z.of_nat (length (table w))
  ∧ (0 ≤ pages ∧ 50 * (pages - 1) < n ≤ 50 * pages)
  ∧ (∀ p, 0 ≤ p < pages →
       files s' !! path p =
         Some (Dumped
                 (JDict [(lit "page", JInt (p + 1));
                         (lit "total_pages", JInt pages);
                         (lit "items_per_page", JInt 50);
                         (lit "total_items", JInt n);
                         (lit "items", JList (document <$> page_data p))])
                 Compact))
  ∧ (∀ p, 0 ≤ p →
       page_data p = normalize <$> take 50 (drop (Z.to_nat (50 * p)) sorted))
  ∧ (∀ a b, document a = document b → a = b)
  ∧ (seqZ 0 pages ≫= λ p, items_in (files s' !! path p))
    = document <$> (normalize <$> sorted)
  ∧ sorted ≡ₚ table w
  ∧ StronglySorted Z.le (Row.id <$> sorted)
  ∧ (seqZ 0 pages ≫= λ p, Item.id <$> page_data p) = Row.id <$> sorted
  ∧ (∀ row, row ∈ table w →
       ∃ p, 0 ≤ p < pages ∧ normalize row ∈ page_data p)
  ∧ (NoDup (Row.id <$> table w) →
     ∀ p q a b, 0 ≤ p < pages → 0 ≤ q < pages →
       a ∈ page_data p → b ∈ page_data q → Item.id a = Item.id b → p = q)
  ∧ calls (trace s') = calls (trace fresh) ++ plan w (lit "db") output_dir
  ∧ seqZ 0 pages ≫= page_data = exported_items (table w)
  ∧ exported_items (table w) ≡ₚ normalize <$> table w
  ∧ StronglySorted Z.le (Item.id <$> exported_items (table w))
  ∧ (∀ p j, 0 ≤ p →
       page_data p !! j =
         if decide (j < 50)%nat
         then exported_items (table w) !! (Z.to_nat p * 50 + j)%nat
         else None)
  ∧ (∀ p, 0 ≤ p < pages - 1 → length (page_data p) = 50%nat)
  ∧ (0 < pages → (0 < length (page_data (pages - 1)%Z) ≤ 50)%nat).
Proof.
  cbv zeta. split; [intros o; reflexivity|].
  apply (C1_pages_partition (H:=caseless)). intros o; reflexivity.
Defined.

(** The example of the specification: 120 records give three pages of 50,
    50 and 20 items, and the ids of the second page are 51 to 100. *)
Example pages_of_120 :
  let rows := numbered_rows 120 in
  ceil_div (Z.of_nat (length rows)) items_per_page = 3
  ∧ length <$> (page_items rows <$> seqZ 0 3) = [50; 50; 20]%nat
  ∧ Item.id <$> page_items rows 1 = seqZ 51 50.
Proof. by vm_compute. Qed.

(** The same on disk: the three page files hold 50, 50 and 20 records,
    the second says it is page 2 of 3 with 120 items and starts at id 51,
    and there is no fourth file. *)
Example page_files_of_120 :
  let w := calm (numbered_rows 120) (lit "now") in
  let s' := (export_architecture_data (H:=caseless) w (lit "db") (lit "out")
               fresh).2 in
  let second := files s' !! lit "out/page_2.json" in
  (λ p, length (items_in (files s' !! page_file (lit "out") p))) <$> seqZ 0 3
  = [50; 50; 20]%nat
  ∧ member (lit "page") second = Some (JInt 2)
  ∧ member (lit "total_pages") second = Some (JInt 3)
  ∧ member (lit "items_per_page") second = Some (JInt 50)
  ∧ member (lit "total_items") second = Some (JInt 120)
  ∧ head (items_in second) = Some (item_json (normalize (blank_row 51)))
  ∧ files s' !! lit "out/page_4.json" = None.
Proof. cbv zeta. split_and!; by vm_compute. Qed.

(** ** An empty source *)

(** C7: with no rows and nothing raising, the run asks for no page and
    writes no page file: it writes the index, whose five mappings are
    there and empty, and the manifest, whose [total_items] and
    [total_pages] are 0; every other path is left as it was. *)
Theorem C7_empty_source `{Unicode} (w : world) (db_path output_dir : pystr)
    (s : state) :
  table w = [] →
  (∀ o, raises w o = false) →
  let s' := (export_architecture_data w db_path output_dir s).2 in
  total_count w = 0
  ∧ total_pages w = 0
  ∧ calls (trace s') =
      calls (trace s)
      ++ [Makedirs output_dir; Connect db_path; Count;
          Write (index_file output_dir); Write (metadata_file output_dir);
          DirSize output_dir]
  ∧ files s' !! index_file output_dir =
      Some (Dumped (JDict [(lit "architects", JDict []);
                           (lit "years", JDict []);
                           (lit "categories", JDict []);
                           (lit "titles", JDict []);
                           (lit "addresses", JDict [])]) Compact)
  ∧ files s' !! metadata_file output_dir =
      Some (Dumped (JDict [(lit "total_items", JInt 0);
                           (lit "total_pages", JInt 0);
                           (lit "items_per_page", JInt 50);
                           (lit "generated_at", JStr (now w));
                           (lit "format_version", JStr (lit "1.0"))]) Indent2)
  ∧ (∀ path, path ≠ index_file output_dir →
             path ≠ metadata_file output_dir →
             files s' !! path = files s !! path).
Proof.
  intros Hrows Hcalm. cbv zeta.
  destruct (export_calm w db_path output_dir s Hcalm) as (_ & Hfiles & Htrace).
  assert (total_count w = 0) as Hn by (unfold total_count; by rewrite Hrows).
  assert (total_pages w = 0) as Hp by (unfold total_pages; by rewrite Hn).
  assert (outputs w output_dir =
          [(index_file output_dir, Dumped (index_json empty_index) Compact);
           (metadata_file output_dir,
            Dumped (metadata_json 0 0 items_per_page (now w)) Indent2)])
    as Hout by (unfold outputs; by rewrite Hp, Hn, Hrows).
  rewrite Hfiles, Hout. unfold write_all. simpl.
  split_and!; try done.
  - rewrite Htrace, !calls_app, calls_Called. unfold plan. rewrite Hp.
    simpl. done.
  - rewrite lookup_insert_ne by apply not_eq_sym, index_file_not_metadata.
    apply lookup_insert_eq.
  - apply lookup_insert_eq.
  - intros path Hi Hm. by rewrite !lookup_insert_ne.
Qed.

Lemma C7_empty_source_witness :
  let w := calm [] (lit "2026-01-01T00:00:00") in
  let s' := (export_architecture_data (H:=caseless) w (lit "db") (lit "out")
               fresh).2 in
  table w = []
  ∧ (∀ o, raises w o = false)
  ∧ total_count w = 0
  ∧ total_pages w = 0
  ∧ calls (trace s') =
      calls (trace fresh)
      ++ [Makedirs (lit "out"); Connect (lit "db"); Count;
          Write (index_file (lit "out")); Write (metadata_file (lit "out"));
          DirSize (lit "out")]
  ∧ files s' !! index_file (lit "out") =
      Some (Dumped (JDict [(lit "architects", JDict []);
                           (lit "years", JDict []);
                           (lit "categories", JDict []);
                           (lit "titles", JDict []);
                           (lit "addresses", JDict [])]) Compact)
  ∧ files s' !! metadata_file (lit "out") =
      Some (Dumped (JDict [(lit "total_items", JInt 0);
                           (lit "total_pages", JInt 0);
                           (lit "items_per_page", JInt 50);
                           (lit "generated_at", JStr (now w));
                           (lit "format_version", JStr (lit "1.0"))]) Indent2)
  ∧ (∀ path, path ≠ index_file (lit "out") →
             path ≠ metadata_file (lit "out") →
             files s' !! path = files fresh !! path).
Proof.
  cbv zeta. split; [reflexivity|]. split; [intros o; reflexivity|].
  apply (C7_empty_source (H:=caseless)); [reflexivity|intros o; reflexivity].
Defined.

(** ** Running the export again *)

Lemma outputs_same_source `{Unicode} (w1 w2 : world) (out path : pystr)
    (c : content) :
  table w1 = table w2 → path ≠ metadata_file out →
  (path, c) ∈ outputs w2 out → (path, c) ∈ outputs w1 out.
Proof.
  intros Hrows Hpath. unfold outputs, page_output, total_pages, total_count.
  rewrite Hrows, !elem_of_app, !elem_of_cons, !elem_of_nil.
  intros [?|[?|[[=]|[]]]]; [by left|by right; left|by subst].
Qed.

(** C6: a second run on the same rows, with nothing raising in either,
    leaves every path but the manifest with the content the first run
    left: the page files and the index are the same documents in the same
    layout.  The two manifests have the same count, number of pages, page
    size and format version "1.0", and differ only in [generated_at], the
    reading of the clock. *)
Theorem C6_rerun_identical `{Unicode} (w1 w2 : world)
    (db_path output_dir : pystr) (s : state) :
  table w1 = table w2 →
  (∀ o, raises w1 o = false) →
  (∀ o, raises w2 o = false) →
  let s1 := (export_architecture_data w1 db_path output_dir s).2 in
  let s2 := (export_architecture_data w2 db_path output_dir s1).2 in
  (∀ path, path ≠ metadata_file output_dir →
           files s2 !! path = files s1 !! path)
  ∧ (∀ path c, (path, c) ∈ outputs w1 output_dir →
               path ≠ metadata_file output_dir →
               files s1 !! path = Some c ∧ files s2 !! path = Some c)
  ∧ ∃ n pages,
      files s1 !! metadata_file output_dir =
        Some (Dumped (JDict [(lit "total_items", JInt n);
                             (lit "total_pages", JInt pages);
                             (lit "items_per_page", JInt 50);
                             (lit "generated_at", JStr (now w1));
                             (lit "format_version", JStr (lit "1.0"))])
                Indent2)
      ∧ files s2 !! metadata_file output_dir =
        Some (Dumped (JDict [(lit "total_items", JInt n);
                             (lit "total_pages", JInt pages);
                             (lit "items_per_page", JInt 50);
                             (lit "generated_at", JStr (now w2));
                             (lit "format_version", JStr (lit "1.0"))])
                Indent2).
Proof.
  intros Hrows Hcalm1 Hcalm2. cbv zeta.
  destruct (export_calm w1 db_path output_dir s Hcalm1) as (_ & Hf1 & _).
  destruct (export_calm w2 db_path output_dir
              (export_architecture_data w1 db_path output_dir s).2 Hcalm2)
    as (_ & Hf2 & _).
  set (s1 := (export_architecture_data w1 db_path output_dir s).2) in *.
  set (s2 := (export_architecture_data w2 db_path output_dir s1).2) in *.
  assert (∀ path, path ≠ metadata_file output_dir →
                  files s2 !! path = files s1 !! path) as Hsame.
  { intros path Hpath. rewrite Hf2.
    destruct (decide (path ∈ (outputs w2 output_dir).*1)) as [Hin|Hout].
    - apply list_elem_of_fmap in Hin as ([path' c] & -> & Hin). simpl in *.
      rewrite (write_all_lookup _ _ _ c); [|apply outputs_NoDup|done].
      rewrite Hf1. symmetry.
      apply write_all_lookup; [apply outputs_NoDup|].
      by apply (outputs_same_source w1 w2).
    - by apply write_all_lookup_other. }
  split_and!.
  - done.
  - intros path c Hin Hpath. rewrite Hsame by done.
    rewrite Hf1. split; by apply write_all_lookup; [apply outputs_NoDup|].
  - exists (total_count w1), (total_pages w1). split.
    + rewrite Hf1. apply write_all_lookup; [apply outputs_NoDup|].
      apply (outputs_metadata w1).
    + rewrite Hf2.
      replace (total_count w1) with (total_count w2)
        by (unfold total_count; by rewrite Hrows).
      replace (total_pages w1) with (total_pages w2)
        by (unfold total_pages, total_count; by rewrite Hrows).
      apply write_all_lookup; [apply outputs_NoDup|].
      apply (outputs_metadata w2).
Qed.

Lemma C6_rerun_identical_witness :
  let w1 := calm sample_rows (lit "2026-01-01T00:00:00") in
  let w2 := calm sample_rows (lit "2026-01-02T12:30:00") in
  let s1 := (export_architecture_data (H:=caseless) w1 (lit "db") (lit "out")
               fresh).2 in
  let s2 := (export_architecture_data (H:=caseless) w2 (lit "db") (lit "out")
               s1).2 in
  table w1 = table w2
  ∧ (∀ o, raises w1 o = false)
  ∧ (∀ o, raises w2 o = false)
  ∧ (∀ path, path ≠ metadata_file (lit "out") →
             files s2 !! path = files s1 !! path)
  ∧ (∀ path c, (path, c) ∈ outputs (H:=caseless) w1 (lit "out") →
               path ≠ metadata_file (lit "out") →
               files s1 !! path = Some c ∧ files s2 !! path = Some c)
  ∧ ∃ n pages,
      files s1 !! metadata_file (lit "out") =
        Some (Dumped (JDict [(lit "total_items", JInt n);
                             (lit "total_pages", JInt pages);
                             (lit "items_per_page", JInt 50);
                             (lit "generated_at", JStr (now w1));
                             (lit "format_version", JStr (lit "1.0"))])
                Indent2)
      ∧ files s2 !! metadata_file (lit "out") =
        Some (Dumped (JDict [(lit "total_items", JInt n);
                             (lit "total_pages", JInt pages);
                             (lit "items_per_page", JInt 50);
                             (lit "generated_at", JStr (now w2));
                             (lit "format_version", JStr (lit "1.0"))])
                Indent2).
Proof.
  cbv zeta. split; [reflexivity|].
  split; [intros o; reflexivity|]. split; [intros o; reflexivity|].
  apply (C6_rerun_identical (H:=caseless));
    [reflexivity|intros o; reflexivity|intros o; reflexivity].
Defined.

(** ** The index *)

(** The index of the three sample rows.  The title of record 42 has the
    token "church" twice: its id is under "chu" twice.  Record 7 has no
    title, architect or address; record 3 has the year 0 and an empty
    address. *)
Example index_of_sample_rows :
  build_index (H:=caseless) (exported_items sample_rows) =
    {| architects := [(lit "tadao ando", [42])];
       years := [(lit "1989", [42])];
       categories := [(lit "church", [42])];
       titles := [(lit "bc", [3]); (lit "def", [3]);
                  (take 3 title_placeholder, [7]);
                  (lit "chu", [42; 42]); (lit "of", [42]);
                  (lit "the", [42]); (lit "lig", [42])];
       addresses := [(lit "osaka", [42])] |}.
Proof. by vm_compute. Qed.

(** C5: in every facet, the ids under a key are the ids of the records
    that have the key among their keys for the facet, in processing order,
    which is ascending id, once for each time the record has the key (so
    nothing is deduplicated), and a key with no such record is no key of
    the facet.  The keys of a record are: its lowercase architect, unless
    it is the placeholder; its year in decimal; the first three characters
    of each token of two characters or more of its lowercase title split
    at white space; its lowercase category, when it has one that is not
    empty; the first five characters of its lowercase address, unless it is
    the placeholder.  No key is twice in a facet, and this index is what a
    run dumps to [search_index.json]. *)
Theorem C5_index_keys `{Unicode} (rows : list Row.t) :
  let items := exported_items rows in
  let x := build_index items in
  (∀ k, dict_get (architects x) k
        = entry (postings spec_architect_keys items k))
  ∧ (∀ k, dict_get (years x) k = entry (postings spec_year_keys items k))
  ∧ (∀ k, dict_get (titles x) k = entry (postings spec_title_keys items k))
  ∧ (∀ k, dict_get (categories x) k
          = entry (postings spec_category_keys items k))
  ∧ (∀ k, dict_get (addresses x) k
          = entry (postings spec_address_keys items k))
  ∧ (∀ keys k, StronglySorted Z.le (postings keys items k))
  ∧ (NoDup (dict_keys (architects x)) ∧ NoDup (dict_keys (years x))
     ∧ NoDup (dict_keys (titles x)) ∧ NoDup (dict_keys (categories x))
     ∧ NoDup (dict_keys (addresses x)))
  ∧ (∀ w db_path output_dir s,
       table w = rows → (∀ o, raises w o = false) →
       files (export_architecture_data w db_path output_dir s).2
         !! index_file output_dir
       = Some (Dumped (index_json x) Compact)).
Proof.
  cbv zeta.
  rewrite (build_index_facets (exported_items rows))
    by apply exported_items_normal.
  simpl. split_and!; try (intros k; apply file_items_get);
    try apply file_items_NoDup.
  - intros keys k. apply postings_sorted, exported_ids_sorted.
  - intros w db out s <- Hcalm.
    destruct (export_calm w db out s Hcalm) as (_ & -> & _).
    rewrite <-(build_index_facets (exported_items (table w)))
      by apply exported_items_normal.
    apply write_all_lookup; [apply outputs_NoDup|]. apply outputs_index.
Qed.

(** ** Indexed ids are exported ids *)

Lemma exported_ids_NoDup (rows : list Row.t) :
  NoDup (Row.id <$> rows) → NoDup (Item.id <$> exported_items rows).
Proof.
  intros Hnd. rewrite exported_ids.
  by rewrite (merge_sort_Permutation pk_le rows).
Qed.

(** With unique keys, a record is known by its id. *)
Lemma same_id_same_item (items : list Item.t) (a b : Item.t) :
  NoDup (Item.id <$> items) → a ∈ items → b ∈ items →
  Item.id a = Item.id b → a = b.
Proof.
  intros Hnd [i Hi]%list_elem_of_lookup [j Hj]%list_elem_of_lookup Hid.
  assert (i = j) as ->.
  { apply (NoDup_lookup (Item.id <$> items) i j (Item.id a)); [done|..].
    - by rewrite list_lookup_fmap, Hi.
    - by rewrite list_lookup_fmap, Hj, Hid. }
  congruence.
Qed.




(** ** Placeholders and the index *)

(** With unique keys, a record that has no key for a facet is under no key
    of the facet. *)
Lemma no_keys_not_filed (keys : Item.t → list pystr) (items : list Item.t)
    (item : Item.t) (k : pystr) (ids : list Z) :
  NoDup (Item.id <$> items) → item ∈ items → keys item = [] →
  dict_get (file_items keys items) k = Some ids → Item.id item ∉ ids.
Proof.
  intros Hnd Hitem Hkeys Hget Hin. rewrite file_items_get in Hget.
  assert (ids = postings keys items k) as ->
    by (destruct (postings _ _ _); simpl in Hget; congruence).
  apply elem_of_postings in Hin as (item' & Hitem' & Hid & Hk).
  apply (same_id_same_item items) in Hid; [|done..]. subst item'.
  rewrite Hkeys in Hk. by apply elem_of_nil in Hk.
Qed.

(** A record whose architect, or address, is the placeholder is left out
    of the architects facet, or of the addresses facet. *)
Lemma placeholder_architect_not_indexed `{Unicode} (rows : list Row.t)
    (item : Item.t) (k : pystr) (ids : list Z) :
  NoDup (Row.id <$> rows) → item ∈ exported_items rows →
  Item.architect item = architect_placeholder →
  dict_get (architects (build_index (exported_items rows))) k = Some ids →
  Item.id item ∉ ids.
Proof.
  intros Hnd Hitem Hph.
  rewrite build_index_facets by apply exported_items_normal. simpl.
  apply no_keys_not_filed; [by apply exported_ids_NoDup|done|].
  unfold spec_architect_keys. by rewrite decide_True.
Qed.

Lemma placeholder_address_not_indexed `{Unicode} (rows : list Row.t)
    (item : Item.t) (k : pystr) (ids : list Z) :
  NoDup (Row.id <$> rows) → item ∈ exported_items rows →
  Item.address item = address_placeholder →
  dict_get (addresses (build_index (exported_items rows))) k = Some ids →
  Item.id item ∉ ids.
Proof.
  intros Hnd Hitem Hph.
  rewrite build_index_facets by apply exported_items_normal. simpl.
  apply no_keys_not_filed; [by apply exported_ids_NoDup|done|].
  unfold spec_address_keys. by rewrite decide_True.
Qed.

(** C2, at the source with the single row of key 1 and a null title: the
    normalized title is the placeholder, and the run files the id 1 in the
    titles facet of [search_index.json], under the first three characters
    of the placeholder, while the architects and addresses facets, whose
    branches test for their placeholder, stay empty. *)
Theorem C2_placeholder_title_is_indexed :
  let w := calm [blank_row 1] (lit "2026-01-01T00:00:00") in
  let s' := (main (H:=caseless) w [lit "export"; lit "db"; lit "out"]
               fresh).2 in
  Item.title (normalize (blank_row 1)) = title_placeholder
  ∧ Item.architect (normalize (blank_row 1)) = architect_placeholder
  ∧ Item.address (normalize (blank_row 1)) = address_placeholder
  ∧ files s' !! index_file (lit "out") =
      Some (Dumped (index_json
                      {| architects := [];
                         years := [];
                         categories := [];
                         titles := [(take 3 title_placeholder, [1])];
                         addresses := [] |}) Compact).
Proof.
  cbv zeta. split_and!; by vm_compute.
Qed.

(** * Further properties of the export *)

(** ** Every run performs the script *)

Lemma perform_app raising opening steps1 steps2 s :
  perform raising opening (steps1 ++ steps2) s =
    if forallb (λ o, negb (raising o)) steps1.*1
    then perform raising opening steps2 (perform raising opening steps1 s)
    else perform raising opening steps1 s.
Proof.
  revert s. induction steps1 as [|step steps1 IH]; intros s; csimpl; [done|].
  destruct (raising step.1); simpl; [done|]. apply IH.
Qed.

Lemma page_script_ops (w : world) (out : pystr) (pages : list Z) :
  (pages ≫= page_script w out).*1 = pages ≫= page_ops out.
Proof.
  induction pages as [|p ps IH]; csimpl; [done|]. by rewrite IH.
Qed.

Lemma script_ops `{Unicode} (w : world) (db out : pystr) :
  (script w db out).*1 = plan w db out.
Proof.
  unfold script, plan. rewrite !fmap_app, page_script_ops. done.
Qed.

Lemma script_writes `{Unicode} (w : world) (db out : pystr) :
  writes_of (script w db out) = outputs w out.
Proof.
  unfold script, outputs, writes_of. rewrite !omap_app. csimpl. f_equal.
  induction (seqZ 0 (total_pages w)) as [|p ps IH]; csimpl; [done|].
  by rewrite IH.
Qed.

Section Performing.
Context `{Unicode} (w : world).

Lemma export_pages_perform out pages acc s :
  (export_pages w out (total_count w) (total_pages w) pages acc s).2 =
    perform (raises w) (opens w) (pages ≫= page_script w out) s.
Proof.
  revert acc s. induction pages as [|page pages IH]; intros acc s; [done|].
  rewrite export_pages_cons. cbv zeta. csimpl. unfold effect. simpl.
  destruct (raises w (Select _ _)); [done|].
  destruct (raises w (Write _)); [by destruct (opens w _)|]. apply IH.
Qed.

Lemma export_body_perform out s :
  (export_body w out s).2 =
    perform (raises w) (opens w)
      ((Count, None) :: (seqZ 0 (total_pages w) ≫= page_script w out)
       ++ [(Write (index_file out),
            Some (Dumped (index_json (build_index (exported_items (table w))))
                    Compact));
           (Write (metadata_file out),
            Some (Dumped (metadata_json (total_count w) (total_pages w)
                            items_per_page (now w)) Indent2));
           (DirSize out, None)]) s.
Proof.
  rewrite export_body_unfold. cbv zeta.
  cbn [perform effect fst].
  destruct (raises w Count); [done|].
  rewrite perform_app.
  pose proof (export_pages_run w out (seqZ 0 (total_pages w)) []
                (record (Called Count) s)) as [_ Hres].
  pose proof (export_pages_perform out (seqZ 0 (total_pages w)) []
                (record (Called Count) s)) as Hstate.
  destruct (export_pages _ _ _ _ _ _ _) as [r s1]. cbn [fst snd] in *.
  rewrite <-(page_script_ops w out) in Hres. destruct (forallb _ _).
  - destruct Hres as [-> _]. simpl app in *.
    assert (seqZ 0 (total_pages w) ≫= page_items (table w)
            = exported_items (table w)) as -> by apply pages_join.
    rewrite <-Hstate. cbn [perform effect fst].
    destruct (raises w (Write (index_file out))); [by destruct (opens w _)|].
    destruct (raises w (Write (metadata_file out)));
      [by destruct (opens w _)|].
    by destruct (raises w (DirSize out)).
  - destruct Hres as [e ->]. done.
Qed.

(** The state a run leaves is the state the script leaves, with the
    connection closed if it was opened. *)
Lemma export_perform db out s :
  (export_architecture_data w db out s).2 =
    let s' := perform (raises w) (opens w) (script w db out) s in
    if negb (raises w (Makedirs out)) && negb (raises w (Connect db))
    then record Closed s' else s'.
Proof.
  rewrite export_unfold. cbv zeta. unfold script.
  cbn [app perform effect fst].
  destruct (raises w (Makedirs out)); [done|].
  destruct (raises w (Connect db)); [done|]. simpl negb. cbn [andb snd].
  by rewrite export_body_perform.
Qed.
End Performing.

(** ** The files a script leaves *)

#[local] Instance op_eq_dec : EqDecision op.
Proof. solve_decision. Defined.

Lemma elem_of_until_raise_cons raising (o o' : op) (ops : list op) :
  o' ≠ o →
  o' ∈ until_raise raising (o :: ops) ↔
    raising o = false ∧ o' ∈ until_raise raising ops.
Proof.
  intros Hne. simpl. rewrite elem_of_cons. destruct (raising o).
  - rewrite elem_of_nil. split; [by intros [?|[]]|by intros [? _]].
  - split; [by intros [?|?]|intros [_ ?]; by right].
Qed.

Lemma perform_lookup_other raising opening steps s path :
  path ∉ (writes_of steps).*1 →
  files (perform raising opening steps s) !! path = files s !! path.
Proof.
  revert s. induction steps as [|[o oc] steps IH]; intros s Hpath; [done|].
  assert (files (effect raising opening (o, oc) s) !! path = files s !! path
          ∧ path ∉ (writes_of steps).*1) as [Heff Hrest].
  { unfold effect, writes_of in *. destruct o, oc; csimpl in *; try done.
    apply not_elem_of_cons in Hpath as [Hne Hpath].
    split; [|done].
    destruct (raising _); [destruct (opening _)|]; simpl;
      by rewrite ?lookup_insert_ne. }
  simpl. destruct (raising o); [done|]. by rewrite IH.
Qed.

(** A path the script writes holds its document if the write was reached
    and did not raise, is torn if the write raised after [open], and is as
    it was if [open] raised or the script stopped before. *)
Lemma perform_lookup raising opening steps s path c :
  NoDup (writes_of steps).*1 →
  (∀ p, (Write p, None) ∉ steps) →
  (path, c) ∈ writes_of steps →
  (Write path ∈ until_raise raising steps.*1 →
   files (perform raising opening steps s) !! path
   = if raising (Write path)
     then (if opening path then Some Torn else files s !! path)
     else Some c)
  ∧ (Write path ∉ until_raise raising steps.*1 →
     files (perform raising opening steps s) !! path = files s !! path).
Proof.
  revert s. induction steps as [|[o oc] steps IH]; intros s Hnd Hwf Hin.
  { by apply elem_of_nil in Hin. }
  assert (∀ p, (Write p, None) ∉ steps) as Hwf'.
  { intros p Hp. apply (Hwf p). by right. }
  destruct (decide (o = Write path ∧ is_Some oc)) as [[-> [c0 ->]]|Hother].
  - (* the write of [path] itself *)
    unfold writes_of in Hnd, Hin. csimpl in *.
    apply NoDup_cons in Hnd as [Hfresh Hnd].
    assert (c = c0) as ->.
    { apply elem_of_cons in Hin as [[=]|Hin]; [done|].
      destruct Hfresh. apply list_elem_of_fmap. by exists (path, c). }
    split; [intros _|intros []; by left].
    unfold effect. simpl. destruct (raising (Write path)); simpl.
    + destruct (opening path); [apply lookup_insert_eq|done].
    + rewrite perform_lookup_other by done. apply lookup_insert_eq.
  - (* another operation *)
    assert (Write path ≠ o) as Hne.
    { intros <-. destruct oc as [c0|]; [by destruct Hother; eauto|].
      apply (Hwf path). by left. }
    assert (files (effect raising opening (o, oc) s) !! path = files s !! path
            ∧ (path, c) ∈ writes_of steps
            ∧ NoDup (writes_of steps).*1) as (Heff & Hin' & Hnd').
    { unfold effect, writes_of in *. destruct o, oc; csimpl in *; try done.
      apply NoDup_cons in Hnd as [Hfresh Hnd].
      apply elem_of_cons in Hin as [[= <- <-]|Hin];
        [destruct Hother; eauto|].
      split_and!; [|done..].
      assert (path0 ≠ path) by (intros ->; by destruct Hne).
      destruct (raising (Write path0)); [destruct (opening path0)|]; simpl;
        by rewrite ?lookup_insert_ne. }
    change (((o, oc) :: steps).*1) with (o :: steps.*1).
    cbn [perform fst].
    rewrite (elem_of_until_raise_cons raising o) by done.
    destruct (IH (effect raising opening (o, oc) s) Hnd' Hwf' Hin')
      as [Hyes Hno].
    destruct (raising o).
    + split; [by intros [[=] _]|by intros _].
    + rewrite <-Heff. split.
      * intros [_ Hreach]. by apply Hyes.
      * intros Hreach. apply Hno. intros ?. by apply Hreach.
Qed.

Lemma script_writes_have_documents `{Unicode} (w : world) (db out : pystr)
    (p : pystr) :
  (Write p, None) ∉ script w db out.
Proof.
  unfold script. rewrite !elem_of_app, !elem_of_cons, elem_of_nil.
  rewrite list_elem_of_bind. unfold page_script.
  intros [?|[(page & Hin & _)|?]]; destruct_or?; try done.
  rewrite !elem_of_cons, elem_of_nil in Hin. by destruct_or!.
Qed.

Lemma export_files `{Unicode} (w : world) (db out : pystr) (s : state) :
  files (export_architecture_data w db out s).2 =
    files (perform (raises w) (opens w) (script w db out) s).
Proof.
  rewrite export_perform. cbv zeta. by destruct (_ && _).
Qed.

(** ** The files of a run, whatever raises *)

Lemma export_lookup `{Unicode} (w : world) (db out : pystr) (s : state)
    (path : pystr) (c : content) :
  (path, c) ∈ outputs w out →
  let s' := (export_architecture_data w db out s).2 in
  let reached := until_raise (raises w) (plan w db out) in
  (Write path ∈ reached →
   files s' !! path =
     if raises w (Write path)
     then (if opens w path then Some Torn else files s !! path)
     else Some c)
  ∧ (Write path ∉ reached → files s' !! path = files s !! path).
Proof.
  intros Hin. cbv zeta. rewrite export_files, <-script_ops.
  apply perform_lookup.
  - rewrite script_writes. apply outputs_NoDup.
  - apply script_writes_have_documents.
  - by rewrite script_writes.
Qed.

(** Whatever raises, a planned file holds its complete document if its
    write was reached and did not raise; if its write raised, it is torn
    when [open] had returned and is as it was before the run when it was
    [open] that raised; it is as it was before the run if the run stopped
    earlier; and the run changes no other path. *)
Theorem files_after_any_run `{Unicode} (w : world)
    (db_path output_dir : pystr) (s : state) :
  let s' := (export_architecture_data w db_path output_dir s).2 in
  let reached := until_raise (raises w) (plan w db_path output_dir) in
  (∀ path c, (path, c) ∈ outputs w output_dir →
     (Write path ∈ reached →
      files s' !! path =
        if raises w (Write path)
        then (if opens w path then Some Torn else files s !! path)
        else Some c)
     ∧ (Write path ∉ reached → files s' !! path = files s !! path))
  ∧ (∀ path, path ∉ (outputs w output_dir).*1 →
             files s' !! path = files s !! path).
Proof.
  cbv zeta. split.
  - intros path c Hin. by apply export_lookup.
  - intros path Hpath. rewrite export_files.
    apply perform_lookup_other. by rewrite script_writes.
Qed.

(** ** Without a connection *)

(** When the output directory cannot be made, or the database cannot be
    opened, the exit status is 1, no file is touched, no query is made and
    [conn.close()] is not called: the run ends at the operation that
    raised. *)
Theorem no_connection_no_output `{Unicode} (w : world) (argv : list pystr)
    (s : state) :
  let db_path := argv_db_path argv in
  let output_dir := argv_output_dir argv in
  raises w (Makedirs output_dir) = true ∨ raises w (Connect db_path) = true →
  let rs := main w argv s in
  rs.1 = 1
  ∧ files rs.2 = files s
  ∧ trace rs.2 =
      trace s ++ (if raises w (Makedirs output_dir)
                  then [Called (Makedirs output_dir)]
                  else [Called (Makedirs output_dir);
                        Called (Connect db_path)]).
Proof.
  cbv zeta. intros Hraise. unfold main. rewrite export_unfold. cbv zeta.
  destruct (raises w (Makedirs _)); simpl; [done|].
  destruct Hraise as [? | ->]; [done|]. simpl.
  by rewrite <-(assoc_L (++)).
Qed.

Lemma no_connection_no_output_witness :
  let w := {| table := sample_rows;
              raises := λ o, match o with Connect _ => true | _ => false end;
              opens := λ _, true;
              now := lit "now" |} in
  let argv := [lit "export"; lit "missing.sqlite3"; lit "out"] in
  (raises w (Makedirs (argv_output_dir argv)) = true
   ∨ raises w (Connect (argv_db_path argv)) = true)
  ∧ (main (H:=caseless) w argv fresh).1 = 1
  ∧ files (main (H:=caseless) w argv fresh).2 = files fresh
  ∧ trace (main (H:=caseless) w argv fresh).2 =
      trace fresh ++ (if raises w (Makedirs (argv_output_dir argv))
                      then [Called (Makedirs (argv_output_dir argv))]
                      else [Called (Makedirs (argv_output_dir argv));
                            Called (Connect (argv_db_path argv))]).
Proof.
  cbv zeta. split; [right; reflexivity|].
  apply (no_connection_no_output (H:=caseless)). right; reflexivity.
Defined.

(** ** The pages before a failure *)

Lemma perform_calm_files raising opening steps s :
  forallb (λ o, negb (raising o)) steps.*1 = true →
  files (perform raising opening steps s)
  = write_all (writes_of steps) (files s).
Proof.
  revert s. induction steps as [|[o oc] steps IH]; intros s; csimpl; [done|].
  destruct (raising o) eqn:Ho; simpl; [done|]. intros Hcalm.
  rewrite IH by done. unfold effect, writes_of, write_all.
  destruct o, oc; csimpl; try done. by rewrite Ho.
Qed.

Lemma writes_of_pages (w : world) (out : pystr) (pages : list Z) :
  writes_of (pages ≫= page_script w out) = page_output w out <$> pages.
Proof.
  unfold writes_of. induction pages as [|p ps IH]; csimpl; [done|].
  by rewrite IH.
Qed.

Lemma calm_pages (w : world) (out : pystr) (pages : list Z) :
  (∀ p, p ∈ pages →
        raises w (Select items_per_page (p * items_per_page)) = false
        ∧ raises w (Write (page_file out p)) = false) →
  forallb (λ o, negb (raises w o)) (pages ≫= page_script w out).*1 = true.
Proof.
  intros Hcalm. apply calm_Forall, Forall_forall. intros o.
  rewrite page_script_ops, elem_of_page_ops.
  intros (p & Hp & [-> | ->]); by apply Hcalm.
Qed.

Lemma page_outputs_NoDup (w : world) (out : pystr) (pages : list Z) :
  NoDup pages → NoDup (page_output w out <$> pages).*1.
Proof.
  intros Hnd. rewrite <-list_fmap_compose.
  apply NoDup_fmap_2_strong; [|done].
  intros p q _ _ Heq. by apply page_file_inj in Heq.
Qed.

(** When the first operation to raise is the query or the write of page
    [k], the status is a failure, the pages before [k] stay on disk with
    their complete documents, the file of page [k] is torn if it was
    [json.dump] that raised and is as it was before the run if it was the
    query or [open], and nothing else is touched: not the later pages, not
    the index, not the manifest.  Nothing is rolled back. *)
Theorem page_failure_keeps_earlier_pages `{Unicode} (w : world)
    (db_path output_dir : pystr) (s : state) (k : Z) :
  0 ≤ k < total_pages w →
  raises w (Makedirs output_dir) = false →
  raises w (Connect db_path) = false →
  raises w Count = false →
  (∀ p, 0 ≤ p < k →
        raises w (Select items_per_page (p * items_per_page)) = false
        ∧ raises w (Write (page_file output_dir p)) = false) →
  raises w (Select items_per_page (k * items_per_page)) = true
  ∨ raises w (Write (page_file output_dir k)) = true →
  let rs := export_architecture_data w db_path output_dir s in
  let before := write_all (page_output w output_dir <$> seqZ 0 k) (files s) in
  rs.1 = Val false
  ∧ files rs.2 =
      (if raises w (Select items_per_page (k * items_per_page))
       then before
       else if opens w (page_file output_dir k)
            then <[page_file output_dir k := Torn]> before
            else before)
  ∧ files rs.2 !! page_file output_dir k =
      (if raises w (Select items_per_page (k * items_per_page))
       then files s !! page_file output_dir k
       else if opens w (page_file output_dir k)
            then Some Torn
            else files s !! page_file output_dir k)
  ∧ (∀ p, 0 ≤ p < k →
          files rs.2 !! page_file output_dir p
          = Some (page_output w output_dir p).2)
  ∧ (∀ p, k < p →
          files rs.2 !! page_file output_dir p
          = files s !! page_file output_dir p)
  ∧ files rs.2 !! index_file output_dir = files s !! index_file output_dir
  ∧ files rs.2 !! metadata_file output_dir
    = files s !! metadata_file output_dir.
Proof.
  intros Hk Hmk Hconn Hcount Hbefore Hraise. cbv zeta.
  assert (seqZ 0 (total_pages w) =
          seqZ 0 k ++ k :: seqZ (k + 1) (total_pages w - k - 1)) as Hseq.
  { replace (total_pages w) with (k + (total_pages w - k)) at 1 by lia.
    rewrite seqZ_app by lia. f_equal. rewrite seqZ_cons by lia.
    replace (0 + k) with k by lia.
    replace (Z.succ k) with (k + 1) by lia.
    by replace (Z.pred (total_pages w - k)) with (total_pages w - k - 1)
      by lia. }
  assert (files (export_architecture_data w db_path output_dir s).2 =
          (if raises w (Select items_per_page (k * items_per_page))
           then write_all (page_output w output_dir <$> seqZ 0 k) (files s)
           else if opens w (page_file output_dir k)
                then <[page_file output_dir k := Torn]>
                       (write_all (page_output w output_dir <$> seqZ 0 k)
                          (files s))
                else write_all (page_output w output_dir <$> seqZ 0 k)
                       (files s))) as Hfiles.
  { rewrite export_files. unfold script. rewrite Hseq, bind_app. csimpl.
    rewrite Hmk, Hconn, Hcount. simpl.
    rewrite <-(assoc_L (++)), perform_app, calm_pages.
    2:{ intros p Hp%elem_of_seqZ. apply Hbefore. lia. }
    cbn [perform effect fst app].
    rewrite <-(writes_of_pages w output_dir (seqZ 0 k)).
    destruct (raises w (Select _ _)) eqn:Hsel.
    - simpl. by rewrite perform_calm_files
        by (apply calm_pages; intros p Hp%elem_of_seqZ; apply Hbefore; lia).
    - destruct Hraise as [|Hwr]; [done|]. rewrite Hwr.
      destruct (opens w _); simpl;
        by rewrite perform_calm_files
          by (apply calm_pages; intros p Hp%elem_of_seqZ; apply Hbefore; lia). }
  assert (page_file output_dir k
          ∉ (page_output w output_dir <$> seqZ 0 k).*1) as Hfresh.
  { intros (y & Heq & (q & -> & Hq%elem_of_seqZ)%list_elem_of_fmap)
             %list_elem_of_fmap.
    simpl in Heq. apply page_file_inj in Heq. lia. }
  assert (∀ path, path ≠ page_file output_dir k →
            path ∉ (page_output w output_dir <$> seqZ 0 k).*1 →
            files (export_architecture_data w db_path output_dir s).2 !! path
            = files s !! path) as Hother.
  { intros path Hne Hpath. rewrite Hfiles.
    destruct (raises w (Select _ _)); [|destruct (opens w _)];
      rewrite ?lookup_insert_ne by done; by apply write_all_lookup_other. }
  assert (∀ path, (∀ p, path ≠ page_file output_dir p) →
            path ∉ (page_output w output_dir <$> seqZ 0 k).*1) as Hnopage.
  { intros path Hpath (y & -> & (p & -> & _)%list_elem_of_fmap)%list_elem_of_fmap.
    by apply (Hpath p). }
  split_and!.
  - destruct (export_run w db_path output_dir s) as (_ & -> & _).
    rewrite Hmk. f_equal. apply calm_Exists, Exists_exists.
    destruct Hraise as [Hr|Hr]; eexists; (split; [|exact Hr]);
      unfold plan; rewrite !elem_of_app, elem_of_page_ops; right; left;
      exists k; (split; [apply elem_of_seqZ; lia|auto]).
  - done.
  - rewrite Hfiles.
    destruct (raises w (Select _ _)); [|destruct (opens w _)];
      rewrite ?lookup_insert_eq; try done;
      by apply write_all_lookup_other.
  - intros p Hp. rewrite Hfiles.
    assert (write_all (page_output w output_dir <$> seqZ 0 k) (files s)
              !! page_file output_dir p
            = Some (page_output w output_dir p).2) as Hpage.
    { apply write_all_lookup; [apply page_outputs_NoDup, NoDup_seqZ|].
      apply (list_elem_of_fmap_2 (page_output w output_dir)),
        elem_of_seqZ. lia. }
    destruct (raises w (Select _ _)); [done|].
    destruct (opens w _); [|done].
    rewrite lookup_insert_ne; [done|].
    intros Heq%page_file_inj. lia.
  - intros p Hp. apply Hother.
    + intros Heq%page_file_inj. lia.
    + intros (y & Heq & (q & -> & Hq%elem_of_seqZ)%list_elem_of_fmap)
               %list_elem_of_fmap.
      simpl in Heq. apply page_file_inj in Heq. lia.
  - apply Hother; [apply not_eq_sym, page_file_not_index|].
    apply Hnopage. intros p. apply not_eq_sym, page_file_not_index.
  - apply Hother; [apply not_eq_sym, page_file_not_metadata|].
    apply Hnopage. intros p. apply not_eq_sym, page_file_not_metadata.
Qed.

Lemma page_failure_keeps_earlier_pages_witness :
  let w := write_raises (lit "out/page_2.json") (numbered_rows 120)
             (lit "now") in
  let out := lit "out" in
  let rs := export_architecture_data (H:=caseless) w (lit "db") out fresh in
  let before := write_all (page_output w out <$> seqZ 0 1) (files fresh) in
  0 ≤ 1 < total_pages w
  ∧ raises w (Makedirs out) = false
  ∧ raises w (Connect (lit "db")) = false
  ∧ raises w Count = false
  ∧ (∀ p, 0 ≤ p < 1 →
          raises w (Select items_per_page (p * items_per_page)) = false
          ∧ raises w (Write (page_file out p)) = false)
  ∧ (raises w (Select items_per_page (1 * items_per_page)) = true
     ∨ raises w (Write (page_file out 1)) = true)
  ∧ rs.1 = Val false
  ∧ files rs.2 =
      (if raises w (Select items_per_page (1 * items_per_page))
       then before
       else if opens w (page_file out 1)
            then <[page_file out 1 := Torn]> before
            else before)
  ∧ files rs.2 !! page_file out 1 =
      (if raises w (Select items_per_page (1 * items_per_page))
       then files fresh !! page_file out 1
       else if opens w (page_file out 1)
            then Some Torn
            else files fresh !! page_file out 1)
  ∧ (∀ p, 0 ≤ p < 1 →
          files rs.2 !! page_file out p = Some (page_output w out p).2)
  ∧ (∀ p, 1 < p → files rs.2 !! page_file out p
                  = files fresh !! page_file out p)
  ∧ files rs.2 !! index_file out = files fresh !! index_file out
  ∧ files rs.2 !! metadata_file out = files fresh !! metadata_file out.
Proof.
  cbv zeta.
  assert (0 ≤ 1 < total_pages
                    (write_raises (lit "out/page_2.json") (numbered_rows 120)
                       (lit "now"))) as Hk by (by vm_compute).
  assert (∀ p, 0 ≤ p < 1 →
            raises (write_raises (lit "out/page_2.json") (numbered_rows 120)
                      (lit "now"))
              (Select items_per_page (p * items_per_page)) = false
            ∧ raises (write_raises (lit "out/page_2.json")
                        (numbered_rows 120) (lit "now"))
                (Write (page_file (lit "out") p)) = false) as Hbefore.
  { intros p Hp. assert (p = 0) as -> by lia. split; reflexivity. }
  split; [exact Hk|]. do 3 (split; [reflexivity|]).
  split; [exact Hbefore|]. split; [right; reflexivity|].
  apply (page_failure_keeps_earlier_pages (H:=caseless));
    [exact Hk|reflexivity..|exact Hbefore|right; reflexivity].
Defined.

(** The two ways a write raises, for the second of three pages: when
    [open] raises, the path keeps the document of an earlier run, or stays
    absent; when [json.dump] raises, the file is torn. *)
Example page_write_failures :
  let path := lit "out/page_2.json" in
  let old := Dumped (JDict []) Compact in
  let earlier := {| files := {[ path := old ]}; trace := [] |} in
  let closed := open_raises path (numbered_rows 120) (lit "now") in
  let broken := write_raises path (numbered_rows 120) (lit "now") in
  let run := λ w s,
    export_architecture_data (H:=caseless) w (lit "db") (lit "out") s in
  (run closed earlier).1 = Val false
  ∧ files (run closed earlier).2 !! path = Some old
  ∧ files (run closed fresh).2 !! path = None
  ∧ (run broken earlier).1 = Val false
  ∧ files (run broken earlier).2 !! path = Some Torn
  ∧ files (run broken fresh).2 !! path = Some Torn.
Proof. cbv zeta. split_and!; by vm_compute. Qed.

(** ** The manifest comes last *)

Lemma reached_before raising (before : list op) (o : op) (after : list op) :
  o ∉ before →
  o ∈ until_raise raising (before ++ o :: after) →
  Forall (λ o', raising o' = false) before.
Proof.
  induction before as [|o' before IH]; intros Hfresh Hin; [constructor|].
  apply not_elem_of_cons in Hfresh as [Hne Hfresh].
  change ((o' :: before) ++ o :: after)
    with (o' :: (before ++ o :: after)) in Hin.
  apply elem_of_until_raise_cons in Hin as [Hcalm Hin]; [|done].
  constructor; [done|]. by apply IH.
Qed.

(** Whatever raises, if the run gets to write [metadata.json] then every
    page file and the index hold their complete documents: the manifest
    is never written over an incomplete export.  The manifest itself is
    complete if its write does not raise, torn if [json.dump] raises, and
    as it was before the run if [open] raises. *)
Theorem manifest_written_last `{Unicode} (w : world)
    (db_path output_dir : pystr) (s : state) :
  Write (metadata_file output_dir)
    ∈ until_raise (raises w) (plan w db_path output_dir) →
  let s' := (export_architecture_data w db_path output_dir s).2 in
  (∀ p, 0 ≤ p < total_pages w →
        files s' !! page_file output_dir p
        = Some (page_output w output_dir p).2)
  ∧ files s' !! index_file output_dir =
      Some (Dumped (index_json (build_index (exported_items (table w))))
              Compact)
  ∧ files s' !! metadata_file output_dir =
      (if raises w (Write (metadata_file output_dir))
       then (if opens w (metadata_file output_dir) then Some Torn
             else files s !! metadata_file output_dir)
       else Some (Dumped (metadata_json (total_count w) (total_pages w)
                            items_per_page (now w)) Indent2)).
Proof.
  intros Hreached. cbv zeta.
  pose proof (plan_NoDup w db_path output_dir) as Hnd.
  assert (plan w db_path output_dir =
          ([Makedirs output_dir; Connect db_path; Count]
           ++ (seqZ 0 (total_pages w) ≫= page_ops output_dir)
           ++ [Write (index_file output_dir)])
          ++ Write (metadata_file output_dir) :: [DirSize output_dir])
    as Hplan by (unfold plan; by rewrite <-!(assoc_L (++))).
  rewrite Hplan in Hnd, Hreached.
  apply NoDup_app in Hnd as (_ & Hfresh & Hnd').
  assert (Forall (λ o, raises w o = false)
            ([Makedirs output_dir; Connect db_path; Count]
             ++ (seqZ 0 (total_pages w) ≫= page_ops output_dir)
             ++ [Write (index_file output_dir)])) as Hcalm.
  { eapply reached_before; [|exact Hreached].
    intros Hin. apply (Hfresh _ Hin). by left. }
  rewrite Forall_forall in Hcalm.
  assert (∀ o, o ∈ [Makedirs output_dir; Connect db_path; Count]
                   ++ (seqZ 0 (total_pages w) ≫= page_ops output_dir)
                   ++ [Write (index_file output_dir)] →
               o ∈ until_raise (raises w) (plan w db_path output_dir))
    as Hall.
  { intros o Ho. rewrite Hplan, until_raise_app.
    rewrite (proj2 (calm_Forall _ _)) by by apply Forall_forall.
    apply elem_of_app. by left. }
  pose proof (export_lookup w db_path output_dir s) as Hout.
  cbv zeta in Hout. split_and!.
  - intros p Hp.
    assert (Write (page_file output_dir p)
            ∈ [Makedirs output_dir; Connect db_path; Count]
              ++ (seqZ 0 (total_pages w) ≫= page_ops output_dir)
              ++ [Write (index_file output_dir)]) as Hin.
    { rewrite !elem_of_app, elem_of_page_ops. right; left.
      exists p. split; [apply elem_of_seqZ; lia|by right]. }
    destruct (Hout _ _ (outputs_page w output_dir p Hp)) as [Hyes _].
    simpl in Hyes. rewrite Hyes by by apply Hall.
    by rewrite (Hcalm _ Hin).
  - assert (Write (index_file output_dir)
            ∈ [Makedirs output_dir; Connect db_path; Count]
              ++ (seqZ 0 (total_pages w) ≫= page_ops output_dir)
              ++ [Write (index_file output_dir)]) as Hin.
    { rewrite !elem_of_app, list_elem_of_singleton. by right; right. }
    destruct (Hout _ _ (outputs_index w output_dir)) as [Hyes _].
    rewrite Hyes by by apply Hall. by rewrite (Hcalm _ Hin).
  - destruct (Hout _ _ (outputs_metadata w output_dir)) as [Hyes _].
    apply Hyes. by rewrite <-Hplan in Hreached.
Qed.

Lemma manifest_written_last_witness :
  let w := {| table := sample_rows;
              raises := λ o, match o with DirSize _ => true | _ => false end;
              opens := λ _, true;
              now := lit "now" |} in
  let out := lit "out" in
  let s' := (export_architecture_data (H:=caseless) w (lit "db") out
               fresh).2 in
  Write (metadata_file out) ∈ until_raise (raises w) (plan w (lit "db") out)
  ∧ (∀ p, 0 ≤ p < total_pages w →
          files s' !! page_file out p = Some (page_output w out p).2)
  ∧ files s' !! index_file out =
      Some (Dumped (index_json (build_index (H:=caseless)
                                  (exported_items (table w)))) Compact)
  ∧ files s' !! metadata_file out =
      (if raises w (Write (metadata_file out))
       then (if opens w (metadata_file out) then Some Torn
             else files fresh !! metadata_file out)
       else Some (Dumped (metadata_json (total_count w) (total_pages w)
                            items_per_page (now w)) Indent2)).
Proof.
  cbv zeta.
  assert (Write (metadata_file (lit "out"))
          ∈ until_raise
              (λ o, match o with DirSize _ => true | _ => false end)
              (plan {| table := sample_rows;
                       raises := λ o, match o with
                                      | DirSize _ => true
                                      | _ => false
                                      end;
                       opens := λ _, true;
                       now := lit "now" |} (lit "db") (lit "out"))) as Hin.
  { vm_compute. do 6 right. left. }
  split; [exact Hin|].
  apply (manifest_written_last (H:=caseless)). exact Hin.
Defined.

(** ** A failure after the last write *)

(** When only the measuring of the output raises, after the manifest is
    written, the exit status is 1 although the export is complete: the
    files are those of a run in which nothing raises. *)
Theorem size_failure_after_complete_export `{Unicode} (w : world)
    (argv : list pystr) (s : state) :
  let db_path := argv_db_path argv in
  let output_dir := argv_output_dir argv in
  raises w (DirSize output_dir) = true →
  (∀ o, o ≠ DirSize output_dir → raises w o = false) →
  let rs := main w argv s in
  rs.1 = 1
  ∧ files rs.2 = write_all (outputs w output_dir) (files s)
  ∧ calls (trace rs.2) = calls (trace s) ++ plan w db_path output_dir.
Proof.
  cbv zeta. intros Hsize Hcalm.
  set (db := argv_db_path argv) in *. set (out := argv_output_dir argv) in *.
  assert (plan w db out =
          ([Makedirs out; Connect db; Count]
           ++ (seqZ 0 (total_pages w) ≫= page_ops out)
           ++ [Write (index_file out); Write (metadata_file out)])
          ++ [DirSize out]) as Hplan
    by (unfold plan; by rewrite <-!(assoc_L (++))).
  assert (forallb (λ o, negb (raises w o))
            ([Makedirs out; Connect db; Count]
             ++ (seqZ 0 (total_pages w) ≫= page_ops out)
             ++ [Write (index_file out); Write (metadata_file out)]) = true)
    as Hprefix.
  { apply calm_Forall, Forall_forall. intros o Ho. apply Hcalm. intros ->.
    pose proof (plan_NoDup w db out) as Hnd. rewrite Hplan in Hnd.
    apply NoDup_app in Hnd as (_ & Hfresh & _).
    apply (Hfresh _ Ho). by left. }
  assert (forallb (λ o, negb (raises w o)) (plan w db out) = false) as Hbad.
  { apply calm_Exists, Exists_exists. exists (DirSize out).
    split; [|done]. rewrite Hplan, elem_of_app, list_elem_of_singleton. auto. }
  assert (until_raise (raises w) (plan w db out) = plan w db out) as Hreach.
  { rewrite Hplan, until_raise_app, Hprefix. simpl. by rewrite Hsize. }
  assert (script w db out =
          ([(Makedirs out, None); (Connect db, None); (Count, None)]
           ++ (seqZ 0 (total_pages w) ≫= page_script w out)
           ++ [(Write (index_file out),
                Some (Dumped (index_json
                                (build_index (exported_items (table w))))
                        Compact));
               (Write (metadata_file out),
                Some (Dumped (metadata_json (total_count w) (total_pages w)
                                items_per_page (now w)) Indent2))])
          ++ [(DirSize out, None)]) as Hscript
    by (unfold script; by rewrite <-!(assoc_L (++))).
  unfold main. fold db out.
  destruct (export_run w db out s) as (Htrace & Hres & _).
  pose proof (export_files w db out s) as Hfiles.
  destruct (export_architecture_data w db out s) as [r s'].
  cbn [fst snd] in *. rewrite Hcalm, Hbad in Hres by done. subst r.
  cbn [fst snd]. split_and!.
  - done.
  - rewrite Hfiles, Hscript.
    match goal with
    | |- context [perform _ _ (?A ++ [(DirSize out, None)]) _] =>
        assert (forallb (λ o, negb (raises w o)) A.*1 = true) as HA
          by (rewrite !fmap_app, page_script_ops; exact Hprefix);
        rewrite perform_app, HA; cbn [perform effect fst];
        rewrite Hsize; cbn [record files];
        rewrite (perform_calm_files _ _ A) by exact HA
    end.
    unfold writes_of, outputs. rewrite !omap_app. csimpl.
    f_equal. f_equal. apply (writes_of_pages w out).
  - rewrite Htrace, Hreach, !calls_app, calls_Called.
    destruct (_ && _); simpl; by rewrite ?app_nil_r.
Qed.

Lemma size_failure_after_complete_export_witness :
  let w := {| table := sample_rows;
              raises := λ o, match o with
                             | DirSize dir => bool_decide (dir = lit "out")
                             | _ => false
                             end;
              opens := λ _, true;
              now := lit "now" |} in
  let argv := [lit "export"; lit "db"; lit "out"] in
  let rs := main (H:=caseless) w argv fresh in
  raises w (DirSize (argv_output_dir argv)) = true
  ∧ (∀ o, o ≠ DirSize (argv_output_dir argv) → raises w o = false)
  ∧ rs.1 = 1
  ∧ files rs.2 = write_all (outputs (H:=caseless) w (argv_output_dir argv))
                   (files fresh)
  ∧ calls (trace rs.2) =
      calls (trace fresh) ++ plan w (argv_db_path argv) (argv_output_dir argv).
Proof.
  cbv zeta.
  assert (∀ o, o ≠ DirSize (argv_output_dir [lit "export"; lit "db"; lit "out"]) →
               match o with
               | DirSize dir => bool_decide (dir = lit "out")
               | _ => false
               end = false) as Hcalm.
  { intros [] Hne; try reflexivity.
    apply bool_decide_eq_false. intros ->. by apply Hne. }
  split; [reflexivity|]. split; [exact Hcalm|].
  apply (size_failure_after_complete_export (H:=caseless));
    [reflexivity|exact Hcalm].
Defined.

(** ** The index and the manifest on disk *)



(** The index of the three sample rows, as it is on disk: the church
    alone is under an architect, a year, a category and the prefix of an
    address. *)
Example sample_index_on_disk :
  let w := calm sample_rows (lit "now") in
  let s' := (export_architecture_data (H:=caseless) w (lit "db") (lit "out")
               fresh).2 in
  member (lit "architects") (files s' !! lit "out/search_index.json")
  = Some (JDict [(lit "tadao ando", JList [JInt 42])])
  ∧ member (lit "years") (files s' !! lit "out/search_index.json")
    = Some (JDict [(lit "1989", JList [JInt 42])])
  ∧ member (lit "categories") (files s' !! lit "out/search_index.json")
    = Some (JDict [(lit "church", JList [JInt 42])])
  ∧ member (lit "addresses") (files s' !! lit "out/search_index.json")
    = Some (JDict [(lit "osaka", JList [JInt 42])]).
Proof. cbv zeta. split_and!; by vm_compute. Qed.

(** ** Pages of an earlier run *)

(** The export deletes nothing.  When a second run has fewer pages than
    the first, the page files beyond its last page keep the documents of
    the first run, next to a manifest that counts the pages of the
    second. *)
Theorem stale_pages_survive `{Unicode} (w1 w2 : world)
    (db_path output_dir : pystr) (s : state) (p : Z) :
  (∀ o, raises w1 o = false) →
  (∀ o, raises w2 o = false) →
  total_pages w2 ≤ p < total_pages w1 →
  let s1 := (export_architecture_data w1 db_path output_dir s).2 in
  let s2 := (export_architecture_data w2 db_path output_dir s1).2 in
  files s2 !! page_file output_dir p =
    Some (Dumped (page_json p (total_pages w1) items_per_page
                    (total_count w1) (page_items (table w1) p)) Compact)
  ∧ files s2 !! metadata_file output_dir =
      Some (Dumped (metadata_json (total_count w2) (total_pages w2)
                      items_per_page (now w2)) Indent2).
Proof.
  intros Hcalm1 Hcalm2 Hp. cbv zeta.
  destruct (export_calm w1 db_path output_dir s Hcalm1) as (_ & Hf1 & _).
  destruct (export_calm w2 db_path output_dir
              (export_architecture_data w1 db_path output_dir s).2 Hcalm2)
    as (_ & Hf2 & _).
  pose proof (ceil_div_spec (total_count w2)
                ltac:(unfold total_count; lia)) as [Hpos _].
  fold (total_pages w2) in Hpos.
  rewrite Hf2. split.
  - rewrite write_all_lookup_other.
    + rewrite Hf1. apply write_all_lookup; [apply outputs_NoDup|].
      apply (outputs_page w1 output_dir p). lia.
    + unfold outputs. rewrite fmap_app, elem_of_app. csimpl.
      rewrite !elem_of_cons, elem_of_nil.
      intros [(y & Heq & (q & -> & Hq%elem_of_seqZ)%list_elem_of_fmap)
                %list_elem_of_fmap|[Heq|[Heq|[]]]].
      * simpl in Heq. apply page_file_inj in Heq. lia.
      * by apply page_file_not_index in Heq.
      * by apply page_file_not_metadata in Heq.
  - apply write_all_lookup; [apply outputs_NoDup|].
    apply (outputs_metadata w2).
Qed.

Lemma stale_pages_survive_witness :
  let w1 := calm (numbered_rows 120) (lit "monday") in
  let w2 := calm (numbered_rows 60) (lit "tuesday") in
  let out := lit "out" in
  let s1 := (export_architecture_data (H:=caseless) w1 (lit "db") out
               fresh).2 in
  let s2 := (export_architecture_data (H:=caseless) w2 (lit "db") out s1).2 in
  (∀ o, raises w1 o = false)
  ∧ (∀ o, raises w2 o = false)
  ∧ total_pages w2 ≤ 2 < total_pages w1
  ∧ files s2 !! page_file out 2 =
      Some (Dumped (page_json 2 (total_pages w1) items_per_page
                      (total_count w1) (page_items (table w1) 2)) Compact)
  ∧ files s2 !! metadata_file out =
      Some (Dumped (metadata_json (total_count w2) (total_pages w2)
                      items_per_page (now w2)) Indent2).
Proof.
  cbv zeta.
  assert (total_pages (calm (numbered_rows 60) (lit "tuesday")) ≤ 2
          < total_pages (calm (numbered_rows 120) (lit "monday"))) as Hp
    by (by vm_compute).
  split; [intros o; reflexivity|]. split; [intros o; reflexivity|].
  split; [exact Hp|].
  apply (stale_pages_survive (H:=caseless));
    [intros o; reflexivity|intros o; reflexivity|exact Hp].
Defined.

(** * Further properties of the index *)

Lemma key_of_some_item (keys : Item.t → list pystr) (items : list Item.t)
    (k : pystr) :
  k ∈ dict_keys (file_items keys items) ↔
    ∃ item, item ∈ items ∧ k ∈ keys item.
Proof.
  rewrite <-dict_get_Some_keys, file_items_get. split.
  - intros [ids Hids].
    destruct (postings keys items k) as [|i ids'] eqn:Hpost; [done|].
    assert (i ∈ postings keys items k) as Hi by (rewrite Hpost; by left).
    apply elem_of_postings in Hi as (item & Hitem & _ & Hk). eauto.
  - intros (item & Hitem & Hk).
    assert (Item.id item ∈ postings keys items k) as Hi
      by (apply elem_of_postings; eauto).
    destruct (postings keys items k); [by apply elem_of_nil in Hi|].
    by eexists.
Qed.

Section Splitting.
Context `{Unicode}.

(** The tokens of [split] are not empty and hold no white space. *)
Lemma split_from_tokens (word s token : pystr) :
  Forall (λ c, isspace c = false) word →
  token ∈ split_from word s →
  token ≠ [] ∧ Forall (λ c, isspace c = false) token.
Proof.
  revert word. induction s as [|c s IH]; intros word Hword; simpl.
  - destruct word; [by intros ?%elem_of_nil|].
    by intros ->%list_elem_of_singleton.
  - destruct (isspace c) eqn:Hc.
    + destruct word as [|c' word'].
      * by apply IH.
      * intros [->|Hin]%elem_of_cons; [done|]. by apply (IH []).
    + apply IH. apply Forall_app. split; [done|]. by constructor.
Qed.

Lemma split_tokens (s token : pystr) :
  token ∈ split s → token ≠ [] ∧ Forall (λ c, isspace c = false) token.
Proof. by apply split_from_tokens. Qed.

(** The shape of the keys of the index: a title key has two or three
    characters, none of them white space; an address key has at most
    five characters; a year key is the decimal string of a year above
    zero; and in every facet each key has at least one id under it. *)
Theorem index_key_shapes (rows : list Row.t) :
  let x := build_index (exported_items rows) in
  (∀ k, k ∈ dict_keys (titles x) →
        (2 ≤ length k ≤ 3)%nat ∧ Forall (λ c, isspace c = false) k)
  ∧ (∀ k, k ∈ dict_keys (addresses x) → (length k ≤ 5)%nat)
  ∧ (∀ k, k ∈ dict_keys (years x) → ∃ y, 0 < y ∧ k = str y)
  ∧ (∀ facet k,
       facet ∈ [architects x; years x; categories x; titles x; addresses x] →
       dict_get facet k ≠ Some []).
Proof.
  cbv zeta.
  rewrite (build_index_facets (exported_items rows))
    by apply exported_items_normal.
  simpl. split_and!.
  - intros k (item & _ & Hk)%key_of_some_item.
    unfold spec_title_keys in Hk.
    apply list_elem_of_fmap in Hk as (part & -> & Hpart).
    apply list_elem_of_filter in Hpart as [Hlen Hpart].
    apply split_tokens in Hpart as [_ Hspace].
    rewrite length_take. split; [lia|]. by apply Forall_take.
  - intros k (item & _ & Hk)%key_of_some_item.
    unfold spec_address_keys in Hk. case_decide.
    + by apply elem_of_nil in Hk.
    + apply list_elem_of_singleton in Hk as ->. rewrite length_take. lia.
  - intros k (item & Hitem & Hk)%key_of_some_item.
    unfold spec_year_keys in Hk.
    destruct (Item.year item) as [y|] eqn:Hy; [|by apply elem_of_nil in Hk].
    apply list_elem_of_singleton in Hk as ->. exists y. split; [|done].
    pose proof (exported_items_normal rows) as Hnormal.
    rewrite Forall_forall in Hnormal.
    by apply (Hnormal item Hitem).
  - intros facet k Hfacet. rewrite !elem_of_cons, elem_of_nil in Hfacet.
    destruct_or!; subst facet; try done;
      by apply file_items_proper.
Qed.

(** Looking a year up by its decimal string gives the ids of the records
    of that year, all of them and no other, in key order. *)
Theorem years_lookup (rows : list Row.t) (y : Z) :
  let items := exported_items rows in
  dict_get (years (build_index items)) (str y) =
    entry (Item.id <$> filter (λ item, Item.year item = Some y) items).
Proof.
  cbv zeta.
  rewrite (build_index_facets (exported_items rows))
    by apply exported_items_normal.
  simpl. rewrite file_items_get. f_equal. unfold postings.
  induction (exported_items rows) as [|item items IH]; csimpl; [done|].
  rewrite IH, filter_cons. unfold spec_year_keys.
  destruct (Item.year item) as [y'|]; csimpl.
  - rewrite filter_cons, filter_nil.
    destruct (decide (y' = y)) as [->|Hne].
    + by rewrite !decide_True.
    + rewrite !decide_False; [done|congruence|].
      intros Heq%str_inj. congruence.
  - done.
Qed.
End Splitting.

(** ** Facets with one key for a record *)

Section SingleKey.
Context (keys : Item.t → list pystr).
Hypothesis one_key : ∀ item, (length (keys item) ≤ 1)%nat.

Lemma one_key_same (item : Item.t) (k1 k2 : pystr) :
  k1 ∈ keys item → k2 ∈ keys item → k1 = k2.
Proof.
  pose proof (one_key item) as Hlen.
  destruct (keys item) as [|k [|k' ks]]; simpl in Hlen; [|  |lia].
  - by intros ?%elem_of_nil.
  - by intros ->%list_elem_of_singleton ->%list_elem_of_singleton.
Qed.

Lemma postings_NoDup (items : list Item.t) (k : pystr) :
  NoDup (Item.id <$> items) → NoDup (postings keys items k).
Proof.
  unfold postings. induction items as [|item items IH]; csimpl.
  - constructor.
  - intros [Hfresh Hnd]%NoDup_cons. apply NoDup_app. split_and!.
    + pose proof (one_key item) as Hlen.
      pose proof (length_filter (k =.) (keys item)) as Hfilter.
      destruct (filter (k =.) (keys item)) as [|k1 [|k2 ks]]; csimpl in *;
        [constructor|apply NoDup_singleton|lia].
    + intros i (k' & -> & _)%list_elem_of_fmap Hin.
      apply elem_of_postings in Hin as (item' & Hitem' & Hid & _).
      apply Hfresh. rewrite <-Hid. by apply list_elem_of_fmap_2.
    + by apply IH.
Qed.

Lemma postings_one_key (items : list Item.t) (k1 k2 : pystr) (i : Z) :
  NoDup (Item.id <$> items) →
  i ∈ postings keys items k1 → i ∈ postings keys items k2 → k1 = k2.
Proof.
  intros Hnd (a & Ha & Hida & Hk1)%elem_of_postings
             (b & Hb & Hidb & Hk2)%elem_of_postings.
  assert (a = b) as -> by (apply (same_id_same_item items); congruence).
  by apply (one_key_same b).
Qed.
End SingleKey.

(** With unique keys, the architects, years, categories and addresses
    facets hold a record at most once: no id is twice under a key, and no
    id is under two keys of the same facet. *)
Theorem one_entry_per_record `{Unicode} (rows : list Row.t) :
  NoDup (Row.id <$> rows) →
  let x := build_index (exported_items rows) in
  ∀ facet, facet ∈ [architects x; years x; categories x; addresses x] →
    (∀ k ids, dict_get facet k = Some ids → NoDup ids)
    ∧ (∀ k1 k2 ids1 ids2 i,
         dict_get facet k1 = Some ids1 → dict_get facet k2 = Some ids2 →
         i ∈ ids1 → i ∈ ids2 → k1 = k2).
Proof.
  intros Hnd%exported_ids_NoDup. cbv zeta.
  rewrite (build_index_facets (exported_items rows))
    by apply exported_items_normal.
  simpl.
  assert (∀ keys : Item.t → list pystr,
            (∀ item, (length (keys item) ≤ 1)%nat) →
            (∀ k ids, dict_get (file_items keys (exported_items rows)) k
                      = Some ids → NoDup ids)
            ∧ (∀ k1 k2 ids1 ids2 i,
                 dict_get (file_items keys (exported_items rows)) k1
                 = Some ids1 →
                 dict_get (file_items keys (exported_items rows)) k2
                 = Some ids2 →
                 i ∈ ids1 → i ∈ ids2 → k1 = k2)) as Hone.
  { intros keys Hkeys.
    assert (∀ k ids, dict_get (file_items keys (exported_items rows)) k
                     = Some ids →
                     ids = postings keys (exported_items rows) k) as Hget.
    { intros k ids. rewrite file_items_get.
      destruct (postings _ _ _); simpl; congruence. }
    split.
    - intros k ids ->%Hget. by apply postings_NoDup.
    - intros k1 k2 ids1 ids2 i ->%Hget ->%Hget.
      by apply postings_one_key. }
  intros facet Hfacet. rewrite !elem_of_cons, elem_of_nil in Hfacet.
  destruct_or!; subst facet; try done; apply Hone; intros item.
  - unfold spec_architect_keys. case_decide; simpl; lia.
  - unfold spec_year_keys. destruct (Item.year item); simpl; lia.
  - unfold spec_category_keys.
    destruct (Item.category item) as [[|??]|]; simpl; lia.
  - unfold spec_address_keys. case_decide; simpl; lia.
Qed.

Lemma one_entry_per_record_witness :
  let x := build_index (H:=caseless) (exported_items sample_rows) in
  NoDup (Row.id <$> sample_rows)
  ∧ ∀ facet, facet ∈ [architects x; years x; categories x; addresses x] →
      (∀ k ids, dict_get facet k = Some ids → NoDup ids)
      ∧ (∀ k1 k2 ids1 ids2 i,
           dict_get facet k1 = Some ids1 → dict_get facet k2 = Some ids2 →
           i ∈ ids1 → i ∈ ids2 → k1 = k2).
Proof.
  cbv zeta.
  assert (NoDup (Row.id <$> sample_rows)) as Hnd.
  { apply NoDup_ListNoDup. simpl.
    repeat (constructor; [simpl; intros Hin; intuition discriminate|]).
    constructor. }
  split; [exact Hnd|].
  apply (one_entry_per_record (H:=caseless)). exact Hnd.
Defined.

(** ** File names *)

(** Different pages go to different files, and no page goes to the file
    of the index or of the manifest, whatever the output directory: no
    write of a run lands on the file of another. *)
Theorem export_paths_distinct (output_dir : pystr) (p q : Z) :
  (page_file output_dir p = page_file output_dir q ↔ p = q)
  ∧ page_file output_dir p ≠ index_file output_dir
  ∧ page_file output_dir p ≠ metadata_file output_dir
  ∧ index_file output_dir ≠ metadata_file output_dir.
Proof.
  split_and!.
  - split; [apply page_file_inj|by intros ->].
  - apply page_file_not_index.
  - apply page_file_not_metadata.
  - apply index_file_not_metadata.
Qed.

(** * Properties of the code analysis *)

(** ** Files left out of the analysis *)

Lemma contains_run (pattern s : pystr) :
  contains pattern s = true ↔ ∃ a b, s = a ++ pattern ++ b.
Proof.
  split.
  - induction s as [|c s IH]; simpl; rewrite orb_true_iff.
    + intros [[k ->]%bool_decide_eq_true|]; [|done]. by exists [], k.
    + intros [[k ->]%bool_decide_eq_true|Hin]; [by exists [], k|].
      destruct (IH Hin) as (a & b & ->). by exists (c :: a), b.
  - intros (a & b & ->). induction a as [|c a IH]; simpl.
    + destruct (pattern ++ b) eqn:Heq; simpl; rewrite <-Heq;
        apply orb_true_iff; left; apply bool_decide_eq_true; by exists b.
    + apply orb_true_iff. by right.
Qed.

Lemma not_relevant_run (path_str : pystr) :
  is_relevant_file path_str = false ↔
    ∃ pattern a b, pattern ∈ skip_patterns ∧ path_str = a ++ pattern ++ b.
Proof.
  unfold is_relevant_file. rewrite negb_false_iff, existsb_exists. split.
  - intros (pattern & Hin%list_elem_of_In & (a & b & ->)%contains_run). eauto.
  - intros (pattern & a & b & Hin%list_elem_of_In & ->).
    exists pattern. split; [done|]. apply contains_run. eauto.
Qed.

(** A file is left out exactly when its path has one of the six patterns
    as a run of characters, wherever the run is and whatever is around
    it: the patterns are no path components.  So a path that is left out
    stays left out under any longer path around it, and every file below
    a directory that is left out is left out. *)
Theorem skipped_paths_closed (path_str : pystr) :
  (is_relevant_file path_str = false ↔
     ∃ pattern a b, pattern ∈ skip_patterns ∧ path_str = a ++ pattern ++ b)
  ∧ (is_relevant_file path_str = false →
     ∀ a b, is_relevant_file (a ++ path_str ++ b) = false).
Proof.
  split; [apply not_relevant_run|].
  intros (pattern & a0 & b0 & Hin & ->)%not_relevant_run a b.
  apply not_relevant_run. exists pattern, (a ++ a0), (b0 ++ b).
  split; [done|]. by rewrite <-!(assoc_L (++)).
Qed.

(** Two paths: a source file that is kept, and one that is left out for
    the run "dist" in "distance". *)
Example relevant_file_examples :
  is_relevant_file (lit "src/pages/ArchitectsPage.tsx") = true
  ∧ is_relevant_file (lit "src/utils/distance.ts") = false.
Proof. by vm_compute. Qed.

(** ** Groups of state updates *)

Lemma nearby_snoc (group : list update) (u : update) :
  nearby group →
  (∀ v, last group = Some v → u.2 - v.2 ≤ 2) →
  nearby (group ++ [u]).
Proof.
  unfold nearby, update in *. intros Hnear Hlast i a b Ha Hb.
  destruct (decide (S i < length group)%nat) as [Hlt|Hge].
  - rewrite (lookup_app_l group [u] i) in Ha by lia.
    rewrite (lookup_app_l group [u] (S i)) in Hb by lia.
    by apply (Hnear i).
  - assert (S i = length group) as Hi.
    { apply lookup_lt_Some in Hb. rewrite length_app in Hb. simpl in Hb. lia. }
    rewrite (lookup_app_l group [u] i) in Ha by lia.
    rewrite (lookup_app_r group [u] (S i)) in Hb by lia.
    rewrite Hi, Nat.sub_diag in Hb. injection Hb as <-. apply Hlast.
    rewrite last_lookup, <-Hi. done.
Qed.

Lemma nearby_app_l (g1 g2 : list update) : nearby (g1 ++ g2) → nearby g1.
Proof.
  intros Hnear i u v Hu Hv. apply (Hnear i).
  - by apply lookup_app_l_Some.
  - by apply lookup_app_l_Some.
Qed.

Lemma group_step_invariant (content : pystr) (ms : list nat) :
  let st := foldl (group_step content) ([], []) ms in
  Forall (λ g, (2 ≤ length g)%nat ∧ nearby g) st.1
  ∧ nearby st.2
  ∧ concat st.1 ++ st.2 `sublist_of` with_lines content ms.
Proof.
  cbv zeta. induction ms as [|m ms IH] using rev_ind.
  - simpl. split_and!; [constructor|by intros i ?? ?|constructor].
  - rewrite foldl_snoc. unfold with_lines. rewrite fmap_app.
    fold (with_lines content ms). csimpl.
    destruct (foldl (group_step content) ([], []) ms) as [grouped current].
    destruct IH as (Hgood & Hnear & Hsub). simpl in *.
    destruct (last current) as [v|] eqn:Hlast.
    + destruct (decide (line_of content m - v.2 ≤ 2)) as [Hclose|Hfar].
      * rewrite bool_decide_eq_true_2 by done. simpl. split_and!; [done| |].
        -- apply nearby_snoc; [done|]. intros v' Hv'.
           rewrite Hlast in Hv'. by injection Hv' as <-.
        -- rewrite (assoc_L (++)). by apply sublist_app.
      * rewrite bool_decide_eq_false_2 by done.
        destruct (decide (1 < length current)%nat) as [Hlen|Hlen].
        -- rewrite bool_decide_eq_true_2 by done. simpl. split_and!.
           ++ apply Forall_app. split; [done|].
              constructor; [|constructor]. split; [lia|done].
           ++ by intros [|i] ?? ?.
           ++ rewrite concat_app. simpl. rewrite app_nil_r.
              by apply sublist_app.
        -- rewrite bool_decide_eq_false_2 by done. simpl. split_and!.
           ++ done.
           ++ by intros [|i] ?? ?.
           ++ apply sublist_app; [|done].
              etrans; [|exact Hsub]. by apply sublist_inserts_r.
    + simpl. split_and!; [done| |].
      * apply nearby_snoc; [done|]. intros v'. by rewrite Hlast.
      * rewrite (assoc_L (++)). by apply sublist_app.
Qed.

(** The groups of [analyze_state_updates] are runs of matches: each has
    two updates or more, every update of a group is at most two lines
    after the one before it, and the groups, one after the other, are
    matches of the file in their order, none of them twice. *)
Theorem state_update_groups (content : pystr) (setstate_matches : list nat) :
  let groups := group_updates content setstate_matches in
  Forall (λ group, (2 ≤ length group)%nat ∧ nearby group) groups
  ∧ concat groups `sublist_of` with_lines content setstate_matches.
Proof.
  cbv zeta. unfold group_updates.
  pose proof (group_step_invariant content setstate_matches) as Hinv.
  cbv zeta in Hinv.
  destruct (foldl (group_step content) ([], []) setstate_matches)
    as [grouped current].
  destruct Hinv as (Hgood & Hnear & Hsub). simpl in *.
  destruct (decide (1 < length current)%nat) as [Hlen|Hlen].
  - rewrite bool_decide_eq_true_2 by done. split.
    + apply Forall_app. split; [done|].
      constructor; [|constructor]. split; [lia|done].
    + rewrite concat_app. simpl. by rewrite app_nil_r.
  - rewrite bool_decide_eq_false_2 by done. split; [done|].
    etrans; [|exact Hsub]. by apply sublist_inserts_r.
Qed.

Lemma group_in_matches (content : pystr) (ms : list nat)
    (group : list update) :
  group ∈ group_updates content ms → (length group ≤ length ms)%nat.
Proof.
  intros Hin. pose proof (group_step_invariant content ms) as Hinv. cbv zeta in Hinv.
  unfold group_updates in Hin.
  destruct (foldl (group_step content) ([], []) ms) as [grouped current].
  destruct Hinv as (_ & _ & Hsub). simpl in Hsub.
  assert (concat (grouped ++ [current]) `sublist_of` with_lines content ms)
    as Hall by (rewrite concat_app; simpl; by rewrite app_nil_r).
  assert (group ∈ grouped ++ [current]) as Hin'.
  { case_bool_decide; [done|]. apply elem_of_app. by left. }
  clear Hin Hsub. rename Hall into Hsub. rename Hin' into Hin.
  apply sublist_length in Hsub.
  unfold with_lines in Hsub. rewrite length_fmap in Hsub.
  apply list_elem_of_split in Hin as (l1 & l2 & Heq).
  rewrite Heq, concat_app, !length_app in Hsub. simpl in Hsub.
  rewrite length_app in Hsub. lia.
Qed.

Lemma group_step_run (content : pystr) (ms : list nat) :
  nearby (with_lines content ms) →
  foldl (group_step content) ([], []) ms = ([], with_lines content ms).
Proof.
  induction ms as [|m ms IH] using rev_ind; [done|].
  unfold with_lines. rewrite fmap_app. fold (with_lines content ms). csimpl.
  intros Hnear. rewrite foldl_snoc, IH by by eapply nearby_app_l.
  simpl. destruct (last (with_lines content ms)) as [v|] eqn:Hlast; [|done].
  rewrite bool_decide_eq_true_2; [done|].
  unfold update in *. rewrite last_lookup in Hlast.
  pose proof (lookup_lt_Some _ _ _ Hlast) as Hlen.
  apply (Hnear (pred (length (with_lines content ms))) v
           (m, line_of content m)).
  - by apply lookup_app_l_Some.
  - unfold update in *. rewrite lookup_app_r by lia.
    match goal with
    | |- [_] !! ?n = _ => by replace n with 0%nat by lia
    end.
Qed.

(** What [analyze_state_updates] reports.  With three matches or fewer it
    reports nothing.  When each of four matches or more is at most two
    lines after the one before, it reports one issue, for all of them, at
    the line of the first.  And every issue it reports is for a group of
    four updates or more. *)
Theorem state_update_reports (content file : pystr)
    (setstate_matches : list nat) :
  ((length setstate_matches ≤ 3)%nat →
   analyze_state_updates content file setstate_matches = [])
  ∧ ((4 ≤ length setstate_matches)%nat →
     nearby (with_lines content setstate_matches) →
     analyze_state_updates content file setstate_matches
     = [state_updates_issue file (with_lines content setstate_matches)]
     ∧ Some (Issue.line
               (state_updates_issue file
                  (with_lines content setstate_matches)))
       = line_of content <$> head setstate_matches)
  ∧ (∀ issue, issue ∈ analyze_state_updates content file setstate_matches →
       ∃ group, group ∈ group_updates content setstate_matches
                ∧ (4 ≤ length group)%nat
                ∧ issue = state_updates_issue file group).
Proof.
  unfold analyze_state_updates. split_and!.
  - intros Hlen.
    assert (filter (λ group : list update, (3 < length group)%nat)
              (group_updates content setstate_matches) = []) as ->; [|done].
    destruct (filter _ _) as [|group groups] eqn:Hfilter; [done|].
    assert (group ∈ filter (λ group : list update, (3 < length group)%nat)
              (group_updates content setstate_matches)) as Hin
      by (rewrite Hfilter; by left).
    apply list_elem_of_filter in Hin as [Hbig Hin].
    apply group_in_matches in Hin. unfold update in *. lia.
  - intros Hlen Hnear. unfold group_updates.
    rewrite group_step_run by done.
    assert (length (with_lines content setstate_matches)
            = length setstate_matches) as Hlines
      by (unfold with_lines; by rewrite length_fmap).
    rewrite bool_decide_eq_true_2 by (unfold update in *; lia). simpl.
    rewrite filter_cons, decide_True by (unfold update in *; lia).
    split; [done|]. destruct setstate_matches; [simpl in Hlen; lia|done].
  - intros issue (group & -> & Hin)%list_elem_of_fmap.
    apply list_elem_of_filter in Hin as [Hlen Hin].
    exists group. split_and!; [done|lia|done].
Qed.

(** Five updates on the lines 1, 2, 3, 5 and 9: the first four lie each
    within two lines of the one before and are reported as one group at
    line 1; the fifth is too far and stands alone. *)
Example state_updates_example :
  let content := lit "ab
cd
ef

gh



ij" in
  Issue.line <$> analyze_state_updates content (lit "App.tsx") [0; 3; 6; 10; 16]%nat
  = [1]
  ∧ length <$> group_updates content [0; 3; 6; 10; 16]%nat = [4%nat].
Proof. by vm_compute. Qed.

(** ** The report *)

Lemma filter_nil_Forall {A} (P : A → Prop) `{∀ x, Decision (P x)}
    (l : list A) :
  filter P l = [] ↔ Forall (λ x, ¬ P x) l.
Proof.
  induction l as [|x l IH]; [by split; [constructor|]|].
  rewrite filter_cons, Forall_cons. case_decide.
  - split; [done|]. by intros [? _].
  - rewrite IH. by split; [|intros [_ ?]].
Qed.

Lemma severity_levels_distinct :
  lit "critical" ≠ lit "high" ∧ lit "critical" ≠ lit "medium"
  ∧ lit "critical" ≠ lit "low" ∧ lit "high" ≠ lit "medium"
  ∧ lit "high" ≠ lit "low" ∧ lit "medium" ≠ lit "low".
Proof. by vm_compute. Qed.

(** The summary of the report counts every issue once: the four counts
    by severity and the number of issues of any other severity add up to
    [total_issues]; and the two lists of the report are the issues of
    severity critical and high, in the order of [all_issues]. *)
Theorem report_counts_add_up (timestamp : pystr)
    (issues performance_issues : list Issue.t) :
  let r := generate_report timestamp issues performance_issues in
  let others :=
    filter (λ i, Issue.severity i ∉ [lit "critical"; lit "high";
                                     lit "medium"; lit "low"]) issues in
  total_issues (summary r) =
    critical_issues_count (summary r) + high_severity (summary r)
    + medium_severity (summary r) + low_severity (summary r)
    + Z.of_nat (length others)
  ∧ total_issues (summary r) = Z.of_nat (length (all_issues r))
  ∧ critical_issues_count (summary r)
    = Z.of_nat (length (critical_issues r))
  ∧ high_severity (summary r) = Z.of_nat (length (high_priority_issues r))
  ∧ critical_issues r `sublist_of` all_issues r
  ∧ high_priority_issues r `sublist_of` all_issues r.
Proof.
  cbv zeta. simpl. split_and!; try done;
    try (unfold of_severity; apply sublist_filter).
  destruct severity_levels_distinct as (? & ? & ? & ? & ? & ?).
  unfold of_severity. induction issues as [|i issues IH]; [done|].
  rewrite !filter_cons.
  destruct (decide (Issue.severity i = lit "critical")) as [Hc|Hc];
    destruct (decide (Issue.severity i = lit "high")) as [Hh|Hh];
    destruct (decide (Issue.severity i = lit "medium")) as [Hm|Hm];
    destruct (decide (Issue.severity i = lit "low")) as [Hl|Hl];
    try congruence;
    (destruct (decide (Issue.severity i ∉ [lit "critical"; lit "high";
                                           lit "medium"; lit "low"]))
       as [Ho|Ho];
     [try (exfalso; apply Ho; rewrite !elem_of_cons; tauto)
     |try (exfalso; apply Ho; rewrite !elem_of_cons, elem_of_nil; tauto)]);
    cbn [length] in *; lia.
Qed.

(** The recommendations come in a fixed order, each category at most
    once: critical bugs, blocking performance, database, memory.  There
    is none exactly when no issue is critical or high, none has a
    database type and none has "memory_leak" in its type; in particular
    issues of medium and low severity alone give no recommendation. *)
Theorem recommendations_in_order (issues : list Issue.t) :
  let recs := generate_recommendations issues in
  (Recommendation.category <$> recs)
    `sublist_of` [lit "critical_bugs"; lit "performance_blocking";
                  lit "database_performance"; lit "memory_management"]
  ∧ (recs = [] ↔
     Forall (λ i, Issue.severity i ≠ lit "critical"
                  ∧ Issue.severity i ≠ lit "high"
                  ∧ (Issue.type i ∉ [lit "db_operation_in_loop";
                                     lit "missing_error_handling"])
                  ∧ contains (lit "memory_leak") (Issue.type i) = false)
            issues).
Proof.
  cbv zeta. unfold generate_recommendations, of_severity.
  assert (Forall (λ i, Issue.severity i ≠ lit "critical"
                       ∧ Issue.severity i ≠ lit "high"
                       ∧ (Issue.type i ∉ [lit "db_operation_in_loop";
                                          lit "missing_error_handling"])
                       ∧ contains (lit "memory_leak") (Issue.type i) = false)
                 issues ↔
          filter (λ i, Issue.severity i = lit "critical") issues = []
          ∧ filter (λ i, Issue.severity i = lit "high") issues = []
          ∧ filter (λ i, Issue.type i ∈ [lit "db_operation_in_loop";
                                         lit "missing_error_handling"])
              issues = []
          ∧ filter (λ i, contains (lit "memory_leak") (Issue.type i) = true)
              issues = []) as ->.
  { rewrite !filter_nil_Forall, <-!Forall_and. apply Forall_iff.
    intros i. by rewrite not_true_iff_false. }
  destruct (filter (λ i, Issue.severity i = lit "critical") issues)
    as [|c cs];
    destruct (filter (λ i, Issue.severity i = lit "high") issues)
      as [|h hs];
    destruct (filter (λ i, Issue.type i ∈ _) issues) as [|d ds];
    destruct (filter (λ i, contains _ _ = true) issues) as [|m ms];
    rewrite ?bool_decide_eq_true_2 by (simpl; lia);
    rewrite ?bool_decide_eq_false_2 by (simpl; lia);
    (split;
     [csimpl;
      repeat first [apply sublist_nil | apply sublist_skip
                   | apply sublist_cons]
     |split; [try done; intros Hnil; discriminate Hnil
             |try done; intros (? & ? & ? & ?); discriminate]]).
Qed.

(** * Properties of the coordinator's log *)

Lemma sum_values_set (counts : dict Z) (k : pystr) (v : Z) :
  sum_values (dict_set k v counts) =
    sum_values counts - default 0 (dict_get counts k) + v.
Proof.
  unfold sum_values. induction counts as [|[k' v'] counts IH]; csimpl.
  - lia.
  - case_decide; csimpl; [lia|]. rewrite IH. lia.
Qed.

Lemma count_message_types_snoc (log : list Message.t) (msg : Message.t) :
  count_message_types (log ++ [msg]) =
    dict_set (Message.type msg)
      (default 0 (dict_get (count_message_types log) (Message.type msg)) + 1)
      (count_message_types log).
Proof. unfold count_message_types. by rewrite foldl_snoc. Qed.

(** The count of the message types: a type is a key exactly when the log
    has a message of the type, its value is the number of these messages,
    no type is a key twice, and the values add up to the number of
    messages, the [total_messages] of the report. *)
Theorem message_type_counts (communication_log : list Message.t) :
  let counts := count_message_types communication_log in
  (∀ t, dict_get counts t =
          match filter (λ msg, Message.type msg = t) communication_log with
          | [] => None
          | msgs => Some (Z.of_nat (length msgs))
          end)
  ∧ NoDup (dict_keys counts)
  ∧ sum_values counts = Z.of_nat (length communication_log).
Proof.
  cbv zeta. induction communication_log as [|msg log IH] using rev_ind.
  - split_and!; [done|constructor|done].
  - destruct IH as (Hget & Hnd & Hsum).
    rewrite count_message_types_snoc. split_and!.
    + intros t. rewrite dict_get_set, filter_app, filter_cons, filter_nil.
      rewrite (Hget (Message.type msg)).
      destruct (decide (Message.type msg = t)) as [->|Hne].
      * destruct (filter _ log) as [|m ms]; csimpl; [done|].
        rewrite length_app. simpl. f_equal. lia.
      * rewrite Hget, app_nil_r. done.
    + by apply dict_set_NoDup.
    + rewrite sum_values_set, Hsum, length_app. simpl. lia.
Qed.

(** A message that is sent is the last of the log, which keeps the
    messages before it; it goes to "BROADCAST" when no recipient is
    given, and also when the recipient is the empty string; and its type
    is counted once more than before. *)
Theorem sent_message_counted (clock sender_id message_type : pystr)
    (recipient_id : option pystr) (content : json)
    (communication_log : list Message.t) :
  let log' :=
    send_message clock sender_id recipient_id message_type content
      communication_log in
  (∃ msg, log' = communication_log ++ [msg]
          ∧ Message.type msg = message_type
          ∧ Message.sender msg = sender_id
          ∧ Message.recipient msg =
              match recipient_id with
              | None | Some [] => lit "BROADCAST"
              | Some r => r
              end)
  ∧ dict_get (count_message_types log') message_type =
      Some (default 0 (dict_get (count_message_types communication_log)
                         message_type) + 1)
  ∧ (∀ t, t ≠ message_type →
          dict_get (count_message_types log') t
          = dict_get (count_message_types communication_log) t).
Proof.
  cbv zeta. unfold send_message. split_and!.
  - eexists. split; [done|]. simpl. split_and!; try done.
    by destruct recipient_id as [[|??]|].
  - rewrite count_message_types_snoc, dict_get_set. simpl.
    by rewrite decide_True.
  - intros t Ht. rewrite count_message_types_snoc, dict_get_set. simpl.
    by rewrite decide_False.
Qed.
